(** * xvega-bindings: the XVEGA_PLOT command interpreter

    A shallow embedding of [include/xvega-bindings/xvega_bindings.hpp]:
    the generic [parser_base] engine ([simple_switch], [parse_step],
    [parse_loop], [visit_any]) and its four instances ([bin_parser],
    [field_parser], [mark_parser], [xv_sqlite_parser]), followed by the
    properties of the interpreter.

    Conventions of the embedding.
    - The token vector is a [list string]; an iterator into it is the
      index of the token it points at, and [end] is [length toks].
    - Every member function is a computation over the fields of the parser
      object it belongs to, paired with what has been written to
      [std::cout] so far.
    - A computation returns normally, throws, reads through an iterator
      that is outside the vector (undefined behaviour in C++), or runs out
      of the fuel that bounds [parse_loop]'s [while]. *)

From Stdlib Require Import List String Ascii ZArith Lia Bool Arith.
Import ListNotations.
Open Scope string_scope.
Open Scope nat_scope.

(** ** Outcomes and the computation monad *)

(** The exception classes the code throws, with their [what()] text.
    [std::stoi] and [std::stod] throw the second and the third, a failed
    [xtl::any_cast] the last. *)
Inductive exception : Type :=
| runtime_error (what : string)
| invalid_argument (what : string)
| out_of_range (what : string)
| bad_any_cast.

Inductive outcome (S A : Type) : Type :=
| Ok (a : A) (s : S)
| Throw (e : exception)
| Undefined
| Diverge.

Arguments Ok {S A} a s.
Arguments Throw {S A} e.
Arguments Undefined {S A}.
Arguments Diverge {S A}.

(** The fields of a parser object together with the text sent to
    [std::cout], one list element per output statement. *)
Definition st (T : Type) : Type := (T * list string)%type.

Definition M (T A : Type) : Type := st T -> outcome (st T) A.

Definition ret {T A} (a : A) : M T A := fun s => Ok a s.

Definition bind {T A B} (m : M T A) (k : A -> M T B) : M T B :=
  fun s =>
    match m s with
    | Ok a s' => k a s'
    | Throw e => Throw e
    | Undefined => Undefined
    | Diverge => Diverge
    end.

Notation "x <- m ;; k" := (bind m (fun x => k))
  (at level 61, m at next level, right associativity).
Notation "m ;; k" := (bind m (fun _ => k))
  (at level 61, right associativity).

Definition throw {T A} (e : exception) : M T A := fun _ => Throw e.

(** [std::cout << line] *)
Definition print {T} (line : string) : M T unit :=
  fun s => Ok tt (fst s, (snd s ++ [line])%list).

(** An assignment to a field of the parser object. *)
Definition modify {T} (f : T -> T) : M T unit :=
  fun s => Ok tt (f (fst s), snd s).

Definition gets {T A} (f : T -> A) : M T A :=
  fun s => Ok (f (fst s)) s.

(** A conversion of the standard library that either throws or yields a
    value. *)
Definition lift_conv {T A} (r : exception + A) : M T A :=
  match r with
  | inl e => throw e
  | inr a => ret a
  end.

(** Runs a computation of a nested parser object, created with fields
    [t0], and hands back its result and its final fields. The output
    stream is shared. *)
Definition run_nested {T T' A} (t0 : T') (m : M T' A) : M T (A * T') :=
  fun s =>
    match m (t0, snd s) with
    | Ok a s' => Ok (a, fst s') (fst s, snd s')
    | Throw e => Throw e
    | Undefined => Undefined
    | Diverge => Diverge
    end.

(** ** Iterators over the token vector *)

Definition input_it : Type := nat.

(** [*it]: reading through an iterator that does not point at an element
    of the vector is undefined. *)
Definition deref {T} (toks : list string) (it : input_it) : M T string :=
  fun s =>
    match nth_error toks it with
    | Some tok => Ok tok s
    | None => Undefined
    end.

(** [std::distance(it, end)] *)
Definition distance (it end_ : input_it) : Z := Z.of_nat end_ - Z.of_nat it.

(** ** Characters and strings *)

Definition newline : string := String (ascii_of_nat 10) EmptyString.
Definition dquote : ascii := ascii_of_nat 34.
Definition backslash : ascii := ascii_of_nat 92.

Definition toupper (c : ascii) : ascii :=
  let n := nat_of_ascii c in
  if (97 <=? n) && (n <=? 122) then ascii_of_nat (n - 32) else c.

Definition tolower (c : ascii) : ascii :=
  let n := nat_of_ascii c in
  if (65 <=? n) && (n <=? 90) then ascii_of_nat (n + 32) else c.

Fixpoint string_map (f : ascii -> ascii) (s : string) : string :=
  match s with
  | EmptyString => EmptyString
  | String c s' => String (f c) (string_map f s')
  end.

(** Modelled from the spec: [to_upper] of [utils.hpp], which is not among
    the sources. The spec calls it the normalisation (case-fold) of a token
    before a keyword lookup; every key of every table is written in upper
    case, so the fold maps each letter to its upper-case form. *)
Definition to_upper (input : string) : string := string_map toupper input.

(** Modelled from the spec: [to_lower] of [utils.hpp], which is not among
    the sources. In the spec's Scenario A the tokens [COLOR RED] leave the
    colour [red] in the model, so it maps each letter to its lower-case
    form. *)
Definition to_lower (input : string) : string := string_map tolower input.

(** [std::quoted(s)]: [s] between double quotes, with a backslash in front
    of every double quote and backslash inside. *)
Fixpoint quoted_body (s : string) : string :=
  match s with
  | EmptyString => String dquote EmptyString
  | String c s' =>
      if Ascii.eqb c dquote || Ascii.eqb c backslash
      then String backslash (String c (quoted_body s'))
      else String c (quoted_body s')
  end.

Definition quoted (s : string) : string := String dquote (quoted_body s).

(** ** std::stoi *)

Definition isspace (c : ascii) : bool :=
  let n := nat_of_ascii c in
  (n =? 32) || ((9 <=? n) && (n <=? 13)).

Definition digit_value (c : ascii) : option Z :=
  let n := nat_of_ascii c in
  if (48 <=? n) && (n <=? 57) then Some (Z.of_nat (n - 48)) else None.

Fixpoint skip_spaces (s : string) : string :=
  match s with
  | String c s' => if isspace c then skip_spaces s' else s
  | EmptyString => s
  end.

(** The value of the longest run of decimal digits at the head of [s],
    if there is at least one digit. *)
Fixpoint digits_value (s : string) (acc : option Z) : option Z :=
  match s with
  | String c s' =>
      match digit_value c with
      | Some d =>
          digits_value s' (Some (10 * match acc with Some a => a | None => 0 end + d)%Z)
      | None => acc
      end
  | EmptyString => acc
  end.

Definition INT_MIN : Z := (- 2 ^ 31)%Z.
Definition INT_MAX : Z := (2 ^ 31 - 1)%Z.

(** [std::stoi(str)] in base 10: leading white space, an optional sign,
    decimal digits; [invalid_argument] when there is no digit to convert,
    [out_of_range] when the value is not an [int]. *)
Definition stoi (str : string) : exception + Z :=
  let s := skip_spaces str in
  let '(neg, s) :=
    match s with
    | String c s' =>
        if Ascii.eqb c "-"%char then (true, s')
        else if Ascii.eqb c "+"%char then (false, s')
        else (false, s)
    | EmptyString => (false, s)
    end in
  match digits_value s None with
  | None => inl (invalid_argument "stoi")
  | Some v =>
      let v := if neg then (- v)%Z else v in
      if ((INT_MIN <=? v) && (v <=? INT_MAX))%Z then inr v
      else inl (out_of_range "stoi")
  end.

(** ** Lookup in a table keyed by strings

    [std::map<std::string, _>::find]. A table is written as the list of
    its initialisers; when a key is repeated the first initialiser is the
    one the map keeps. *)
Fixpoint find {V : Type} (key : string) (table : list (string * V)) : option V :=
  match table with
  | [] => None
  | (k, v) :: rest => if String.eqb key k then Some v else find key rest
  end.

(** ** parser_base *)

(** What [parse_step] sends to [std::cout] for the token it looks at:
    [std::cout << "🦋 parsing: " << *it << std::endl]. *)
Definition parsing_line (tok : string) : string :=
  "🦋 parsing: " ++ tok ++ newline.

Module parser_base.
Section engine.
Context {T : Type}.

Definition free_fun : Type := M T unit.

(** Switch implementation with strings. *)
Definition simple_switch (token : string) (handlers : list (string * free_fun))
  : M T bool :=
  match find (to_upper token) handlers with
  | None => ret false
  | Some handler => handler ;; ret true
  end.

Definition point_it_fun : Type := input_it -> M T unit.
Definition range_it_fun : Type := input_it -> input_it -> M T input_it.

(** [xtl::variant<point_it_fun, range_it_fun>], index 0 and index 1. *)
Inductive parse_function_types : Type :=
| point_fn (f : point_it_fun)
| range_fn (f : range_it_fun).

Record command_info : Type := {
  number_required_arguments : Z;
  parse_function : parse_function_types
}.

Variable toks : list string.
Variable mapping_table : list (string * command_info).
Variable parse_init : range_it_fun.

(** Parse a single token (and its dependencies). *)
Definition parse_step (begin end_ : input_it) : M T input_it :=
  let it := begin in
  tok <- deref toks it ;;
  print (parsing_line tok) ;;
  match find (to_upper tok) mapping_table with
  | None => ret it
  | Some cmd_info =>
      if (distance it end_ <? number_required_arguments cmd_info)%Z
      then throw (runtime_error "Arguments missing.")
      else
        let it := S it in
        match parse_function cmd_info with
        | point_fn f => f it ;; ret (S it)
        | range_fn f => f it end_
        end
  end.

(** The [while (it != end)] of [parse_loop]; [fuel] bounds the number of
    iterations. *)
Fixpoint parse_while (fuel : nat) (it end_ : input_it) : M T input_it :=
  match fuel with
  | O => fun _ => Diverge
  | S fuel' =>
      if it =? end_ then ret it
      else
        next <- parse_step it end_ ;;
        if next =? it then ret it else parse_while fuel' next end_
  end.

(** Parse all tokens in the range of iterators passed. *)
Definition parse_loop (fuel : nat) (begin end_ : input_it) : M T input_it :=
  it <- parse_init begin end_ ;;
  parse_while fuel it end_.
End engine.

(** The [parse_init] of [parser_base] itself, which a grammar may
    override. *)
Definition parse_init {T} : @range_it_fun T :=
  fun begin _ => ret begin.

(** Implementation of a visitor for an [xtl::any]. What [visit_any] sends
    to [std::cout] for a type without a visitor:
    [std::cout << "Unregistered type " << std::quoted(name)]. *)
Definition unregistered_line (name : string) : string :=
  "Unregistered type " ++ quoted name.

Section visitor.
Context {T any type_index : Type}.
Variable type_index_eqb : type_index -> type_index -> bool.
(** [std::type_index(a.type())] *)
Variable type_of : any -> type_index.
(** [demangle(a.type().name())] *)
Variable type_name : type_index -> string.

(** [std::unordered_map<std::type_index, std::function<void(xtl::any const&)>>],
    as the list of its initialisers. *)
Definition visitor_map_type : Type := list (type_index * (any -> M T unit)).

Fixpoint find_visitor (key : type_index) (any_visitor : visitor_map_type)
  : option (any -> M T unit) :=
  match any_visitor with
  | [] => None
  | (k, f) :: rest =>
      if type_index_eqb key k then Some f else find_visitor key rest
  end.

Definition visit_any (a : any) (any_visitor : visitor_map_type) : M T unit :=
  match find_visitor (type_of a) any_visitor with
  | Some visitor => visitor a
  | None => print (unregistered_line (type_name (type_of a)))
  end.
End visitor.

Section registration.
Context {T any type_index U : Type}.
Variable type_index_eqb : type_index -> type_index -> bool.
(** [std::type_index(typeid(U))] and [typeid(U).name()] *)
Variable type_id : type_index.
Variable type_id_name : string.
(** [xtl::any_cast<U const&>(a)], which throws when [a] does not hold a
    [U]. *)
Variable any_cast : any -> option U.

(** [to_any_visitor<U>(f)]: the type of [U] paired with the function that
    casts an [any] to [U] and calls [f]. *)
Definition to_any_visitor (f : U -> M T unit)
  : type_index * (any -> M T unit) :=
  (type_id,
   fun a =>
     match any_cast a with
     | Some u => f u
     | None => throw bad_any_cast
     end).


End registration.
End parser_base.

(** ** What the code takes from outside the repository

    [double] with [std::stod], and the data frame type of xvega. *)
Class Externals : Type := {
  double : Type;
  stod : string -> exception + double;
  df_type : Type
}.

(** ** The chart model of xvega, as far as the parsers write to it

    An [xtl::xoptional] property is an [option]: [None] until the code has
    assigned to the property or through its [value()]. *)
Module xv.
Section model.
Context {E : Externals}.

Record Bin : Type := {
  anchor : option double;
  base : option double;
  binned : option bool;
  maxbins : option double;
  minstep : option double;
  nice : option bool;
  step : option double
}.

(** [xv::Bin bin;] *)
Definition Bin0 : Bin :=
  {| anchor := None; base := None; binned := None; maxbins := None;
     minstep := None; nice := None; step := None |}.

Definition set_anchor (v : double) (b : Bin) : Bin :=
  {| anchor := Some v; base := base b; binned := binned b; maxbins := maxbins b;
     minstep := minstep b; nice := nice b; step := step b |}.
Definition set_base (v : double) (b : Bin) : Bin :=
  {| anchor := anchor b; base := Some v; binned := binned b; maxbins := maxbins b;
     minstep := minstep b; nice := nice b; step := step b |}.
Definition set_binned (v : bool) (b : Bin) : Bin :=
  {| anchor := anchor b; base := base b; binned := Some v; maxbins := maxbins b;
     minstep := minstep b; nice := nice b; step := step b |}.
Definition set_maxbins (v : double) (b : Bin) : Bin :=
  {| anchor := anchor b; base := base b; binned := binned b; maxbins := Some v;
     minstep := minstep b; nice := nice b; step := step b |}.
Definition set_minstep (v : double) (b : Bin) : Bin :=
  {| anchor := anchor b; base := base b; binned := binned b; maxbins := maxbins b;
     minstep := Some v; nice := nice b; step := step b |}.
Definition set_nice (v : bool) (b : Bin) : Bin :=
  {| anchor := anchor b; base := base b; binned := binned b; maxbins := maxbins b;
     minstep := minstep b; nice := Some v; step := step b |}.
Definition set_step (v : double) (b : Bin) : Bin :=
  {| anchor := anchor b; base := base b; binned := binned b; maxbins := maxbins b;
     minstep := minstep b; nice := nice b; step := Some v |}.

(** [xv::X] and [xv::Y]: the parsers write the same five properties of
    either. [bin] holds a [bool] or a [Bin]. *)
Record Channel : Type := {
  field : option string;
  type : option string;
  bin : option (bool + Bin);
  aggregate : option string;
  timeUnit : option string
}.

(** [xv::X()], [xv::Y()] *)
Definition Channel0 : Channel :=
  {| field := None; type := None; bin := None; aggregate := None;
     timeUnit := None |}.

Definition set_field (v : string) (c : Channel) : Channel :=
  {| field := Some v; type := type c; bin := bin c; aggregate := aggregate c;
     timeUnit := timeUnit c |}.
Definition set_type (v : string) (c : Channel) : Channel :=
  {| field := field c; type := Some v; bin := bin c; aggregate := aggregate c;
     timeUnit := timeUnit c |}.
Definition set_bin (v : bool + Bin) (c : Channel) : Channel :=
  {| field := field c; type := type c; bin := Some v; aggregate := aggregate c;
     timeUnit := timeUnit c |}.
Definition set_aggregate (v : string) (c : Channel) : Channel :=
  {| field := field c; type := type c; bin := bin c; aggregate := Some v;
     timeUnit := timeUnit c |}.
Definition set_timeUnit (v : string) (c : Channel) : Channel :=
  {| field := field c; type := type c; bin := bin c; aggregate := aggregate c;
     timeUnit := Some v |}.

Record Encodings : Type := {
  x : option Channel;
  y : option Channel
}.

(** [xv::Encodings()] *)
Definition Encodings0 : Encodings := {| x := None; y := None |}.

(** The eleven mark classes of xvega. *)
Inductive mark_kind : Type :=
| arc | area | bar | circle | line | point | rect | rule | square | tick | trail.

Definition mark_kind_eqb (a b : mark_kind) : bool :=
  match a, b with
  | arc, arc | area, area | bar, bar | circle, circle | line, line
  | point, point | rect, rect | rule, rule | square, square | tick, tick
  | trail, trail => true
  | _, _ => false
  end.

(** A mark object: its class and the one property the parsers write. *)
Record mark : Type := {
  kind : mark_kind;
  color : option string
}.

Definition mark_arc : mark := {| kind := arc; color := None |}.
Definition mark_area : mark := {| kind := area; color := None |}.
Definition mark_bar : mark := {| kind := bar; color := None |}.
Definition mark_circle : mark := {| kind := circle; color := None |}.
Definition mark_line : mark := {| kind := line; color := None |}.
Definition mark_point : mark := {| kind := point; color := None |}.
Definition mark_rect : mark := {| kind := rect; color := None |}.
Definition mark_rule : mark := {| kind := rule; color := None |}.
Definition mark_square : mark := {| kind := square; color := None |}.
Definition mark_tick : mark := {| kind := tick; color := None |}.
Definition mark_trail : mark := {| kind := trail; color := None |}.

Definition set_color (v : string) (m : mark) : mark :=
  {| kind := kind m; color := Some v |}.

(** The [xtl::any] behind [Chart::mark]: empty, or a closure wrapper
    around one mark object. *)
Definition xany : Type := option mark.

(** The type an [xany] holds: [void] when empty, otherwise
    [xtl::xclosure_wrapper<K&>] for the class [K] of the mark. *)
Definition type_index : Type := option mark_kind.

Definition type_index_eqb (a b : type_index) : bool :=
  match a, b with
  | None, None => true
  | Some k, Some k' => mark_kind_eqb k k'
  | _, _ => false
  end.

Definition type_of (a : xany) : type_index := option_map kind a.

Definition mark_kind_name (k : mark_kind) : string :=
  match k with
  | arc => "mark_arc" | area => "mark_area" | bar => "mark_bar"
  | circle => "mark_circle" | line => "mark_line" | point => "mark_point"
  | rect => "mark_rect" | rule => "mark_rule" | square => "mark_square"
  | tick => "mark_tick" | trail => "mark_trail"
  end.

Definition type_name (t : type_index) : string :=
  match t with
  | None => "void"
  | Some k => "xtl::xclosure_wrapper<xv::" ++ mark_kind_name k ++ "&>"
  end.

Record axis_config : Type := { grid : option bool }.
Record Config : Type := { axis : option axis_config }.

Record Chart : Type := {
  data : option df_type;
  encoding : option Encodings;
  mark_ : xany;
  width : option Z;
  height : option Z;
  config : option Config
}.

(** [xv::Chart chart;] *)
Definition Chart0 : Chart :=
  {| data := None; encoding := None; mark_ := None; width := None;
     height := None; config := None |}.

Definition set_data (v : df_type) (c : Chart) : Chart :=
  {| data := Some v; encoding := encoding c; mark_ := mark_ c; width := width c;
     height := height c; config := config c |}.
Definition set_encoding (v : Encodings) (c : Chart) : Chart :=
  {| data := data c; encoding := Some v; mark_ := mark_ c; width := width c;
     height := height c; config := config c |}.
Definition set_mark (v : mark) (c : Chart) : Chart :=
  {| data := data c; encoding := encoding c; mark_ := Some v; width := width c;
     height := height c; config := config c |}.
Definition set_width (v : Z) (c : Chart) : Chart :=
  {| data := data c; encoding := encoding c; mark_ := mark_ c; width := Some v;
     height := height c; config := config c |}.
Definition set_height (v : Z) (c : Chart) : Chart :=
  {| data := data c; encoding := encoding c; mark_ := mark_ c; width := width c;
     height := Some v; config := config c |}.
Definition set_config (v : Config) (c : Chart) : Chart :=
  {| data := data c; encoding := encoding c; mark_ := mark_ c; width := width c;
     height := height c; config := Some v |}.

(** [chart.encoding().value()] *)
Definition encoding_value (c : Chart) : Encodings :=
  match encoding c with Some e => e | None => Encodings0 end.

(** [chart.encoding().value().x = v] and its [y] twin. *)
Definition set_x (v : Channel) (c : Chart) : Chart :=
  set_encoding {| x := Some v; y := y (encoding_value c) |} c.
Definition set_y (v : Channel) (c : Chart) : Chart :=
  set_encoding {| x := x (encoding_value c); y := Some v |} c.

(** [chart.encoding().value().x().value()] and its [y] twin. *)
Definition x_value (c : Chart) : Channel :=
  match x (encoding_value c) with Some v => v | None => Channel0 end.
Definition y_value (c : Chart) : Channel :=
  match y (encoding_value c) with Some v => v | None => Channel0 end.

(** [chart.config().value().axis().value().grid() = v] *)
Definition set_grid (v : bool) (c : Chart) : Chart :=
  set_config {| axis := Some {| grid := Some v |} |} c.
End model.
End xv.

(** ** Parsers bound to a part of the model *)

(** Runs a computation of a parser object whose fields are the part
    [get t] of the caller's fields [t], the part being written in place. *)
Definition zoom {T T' A} (get : T -> T') (set : T' -> T -> T) (m : M T' A)
  : M T A :=
  fun s =>
    match m (get (fst s), snd s) with
    | Ok a s' => Ok a (set (fst s') (fst s), snd s')
    | Throw e => Throw e
    | Undefined => Undefined
    | Diverge => Diverge
    end.

(** ** bin_parser *)

Module bin_parser.
Section grammar.
Context {E : Externals}.
Variable fuel : nat.
Variable toks : list string.

(** The data members: [xv::Bin& bin] and [int num_parsed_attrs]. *)
Record t : Type := {
  bin : xv.Bin;
  num_parsed_attrs : Z
}.

Definition with_bin (f : xv.Bin -> xv.Bin) (p : t) : t :=
  {| bin := f (bin p); num_parsed_attrs := num_parsed_attrs p |}.

(** [num_parsed_attrs++] on an [int]; overflow of a signed integer is
    undefined. *)
Definition incr_num_parsed_attrs : M t unit :=
  fun s =>
    if (num_parsed_attrs (fst s) =? INT_MAX)%Z then Undefined
    else Ok tt ({| bin := bin (fst s);
                   num_parsed_attrs := num_parsed_attrs (fst s) + 1 |}, snd s).

Definition parse_bin_anchor (it : input_it) : M t unit :=
  tok <- deref toks it ;;
  v <- lift_conv (stod tok) ;;
  modify (with_bin (xv.set_anchor v)) ;;
  incr_num_parsed_attrs.

Definition parse_bin_base (it : input_it) : M t unit :=
  tok <- deref toks it ;;
  v <- lift_conv (stod tok) ;;
  modify (with_bin (xv.set_base v)) ;;
  incr_num_parsed_attrs.

Definition parse_bin_binned (it : input_it) : M t unit :=
  tok <- deref toks it ;;
  parser_base.simple_switch tok
    [ ("TRUE",  modify (with_bin (xv.set_binned true)) ;; incr_num_parsed_attrs);
      ("FALSE", modify (with_bin (xv.set_binned false)) ;; incr_num_parsed_attrs) ] ;;
  ret tt.

Definition parse_bin_maxbins (it : input_it) : M t unit :=
  tok <- deref toks it ;;
  v <- lift_conv (stod tok) ;;
  modify (with_bin (xv.set_maxbins v)) ;;
  incr_num_parsed_attrs.

Definition parse_bin_minstep (it : input_it) : M t unit :=
  tok <- deref toks it ;;
  v <- lift_conv (stod tok) ;;
  modify (with_bin (xv.set_minstep v)) ;;
  incr_num_parsed_attrs.

Definition parse_bin_nice (it : input_it) : M t unit :=
  tok <- deref toks it ;;
  parser_base.simple_switch tok
    [ ("TRUE",  modify (with_bin (xv.set_nice true)) ;; incr_num_parsed_attrs);
      ("FALSE", modify (with_bin (xv.set_nice false)) ;; incr_num_parsed_attrs) ] ;;
  ret tt.

Definition parse_bin_step (it : input_it) : M t unit :=
  tok <- deref toks it ;;
  v <- lift_conv (stod tok) ;;
  modify (with_bin (xv.set_step v)) ;;
  incr_num_parsed_attrs.

Definition mapping_table : list (string * @parser_base.command_info t) :=
  [ ("ANCHOR",  {| parser_base.number_required_arguments := 1; parser_base.parse_function := parser_base.point_fn parse_bin_anchor |});
    ("BASE",    {| parser_base.number_required_arguments := 1; parser_base.parse_function := parser_base.point_fn parse_bin_base |});
    ("BINNED",  {| parser_base.number_required_arguments := 1; parser_base.parse_function := parser_base.point_fn parse_bin_binned |});
    ("MAXBINS", {| parser_base.number_required_arguments := 1; parser_base.parse_function := parser_base.point_fn parse_bin_maxbins |});
    ("MINSTEP", {| parser_base.number_required_arguments := 1; parser_base.parse_function := parser_base.point_fn parse_bin_minstep |});
    ("NICE",    {| parser_base.number_required_arguments := 1; parser_base.parse_function := parser_base.point_fn parse_bin_nice |});
    ("STEP",    {| parser_base.number_required_arguments := 1; parser_base.parse_function := parser_base.point_fn parse_bin_step |}) ].

Definition parse_init : @parser_base.range_it_fun t := parser_base.parse_init.

Definition parse_step : @parser_base.range_it_fun t :=
  parser_base.parse_step toks mapping_table.

Definition parse_loop : @parser_base.range_it_fun t :=
  parser_base.parse_loop toks mapping_table parse_init fuel.
End grammar.
End bin_parser.

(** ** field_parser *)

Module field_parser.
Section grammar.
Context {E : Externals}.
Variable fuel : nat.
Variable toks : list string.

(** The data member [enc] points at the [xv::X] or the [xv::Y] of the
    chart; the fields of the parser are that object. *)
Definition t : Type := xv.Channel.

Definition parse_init (begin end_ : input_it) : M t input_it :=
  tok <- deref toks begin ;;
  modify (xv.set_field tok) ;;
  modify (xv.set_type "quantitative") ;;
  ret (begin + 1).

Definition parse_field_bin (begin end_ : input_it) : M t input_it :=
  tok <- deref toks begin ;;
  found <- parser_base.simple_switch tok
    [ ("TRUE",  modify (xv.set_bin (inl true)));
      ("FALSE", modify (xv.set_bin (inl false))) ] ;;
  if found : bool then ret (begin + 1)
  else
    r <- run_nested
           {| bin_parser.bin := xv.Bin0; bin_parser.num_parsed_attrs := 0 |}
           (bin_parser.parse_loop fuel toks begin end_) ;;
    let it := fst r in
    let parser := snd r in
    if (bin_parser.num_parsed_attrs parser =? 0)%Z
    then throw (runtime_error "Missing or invalid BIN type")
    else
      modify (xv.set_bin (inr (bin_parser.bin parser))) ;;
      ret it.

Definition type_handlers : list (string * @parser_base.free_fun t) :=
  [ ("QUANTITATIVE", modify (xv.set_type "quantitative"));
    ("NOMINAL",      modify (xv.set_type "nominal"));
    ("ORDINAL",      modify (xv.set_type "ordinal"));
    ("TEMPORAL",     modify (xv.set_type "temporal")) ].

Definition parse_field_type (it : input_it) : M t unit :=
  tok <- deref toks it ;;
  found <- parser_base.simple_switch tok type_handlers ;;
  if found : bool then ret tt
  else throw (runtime_error "Missing or invalid TYPE type").

Definition aggregate_handlers : list (string * @parser_base.free_fun t) :=
  [ ("COUNT",     modify (xv.set_aggregate "count"));
    ("VALID",     modify (xv.set_aggregate "valid"));
    ("MISSING",   modify (xv.set_aggregate "missing"));
    ("DISTINCT",  modify (xv.set_aggregate "distinct"));
    ("SUM",       modify (xv.set_aggregate "sum"));
    ("PRODUCT",   modify (xv.set_aggregate "product"));
    ("MEAN",      modify (xv.set_aggregate "mean"));
    ("AVERAGE",   modify (xv.set_aggregate "average"));
    ("VARIANCE",  modify (xv.set_aggregate "variance"));
    ("VARIANCEP", modify (xv.set_aggregate "variancep"));
    ("STDEV",     modify (xv.set_aggregate "stdev"));
    ("STEDEVP",   modify (xv.set_aggregate "stedevp"));
    ("STEDERR",   modify (xv.set_aggregate "stederr"));
    ("MEDIAN",    modify (xv.set_aggregate "median"));
    ("Q1",        modify (xv.set_aggregate "q1"));
    ("Q3",        modify (xv.set_aggregate "q3"));
    ("CI0",       modify (xv.set_aggregate "ci0"));
    ("CI1",       modify (xv.set_aggregate "ci1"));
    ("MIN",       modify (xv.set_aggregate "min"));
    ("MAX",       modify (xv.set_aggregate "max"));
    ("ARGMIN",    modify (xv.set_aggregate "argmin"));
    ("ARGMAX",    modify (xv.set_aggregate "argmax")) ].

Definition parse_field_aggregate (begin end_ : input_it) : M t input_it :=
  tok <- deref toks begin ;;
  found <- parser_base.simple_switch tok aggregate_handlers ;;
  if found : bool then ret (begin + 1)
  else throw (runtime_error "Missing or invalid AGGREGATE type").

Definition time_unit_handlers : list (string * @parser_base.free_fun t) :=
  [ ("YEAR",        modify (xv.set_timeUnit "year"));
    ("QUARTER",     modify (xv.set_timeUnit "quarter"));
    ("MONTH",       modify (xv.set_timeUnit "month"));
    ("DAY",         modify (xv.set_timeUnit "day"));
    ("DATE",        modify (xv.set_timeUnit "date"));
    ("HOURS",       modify (xv.set_timeUnit "hours"));
    ("MINUTES",     modify (xv.set_timeUnit "minutes"));
    ("SECONDS",     modify (xv.set_timeUnit "seconds"));
    ("MILISECONDS", modify (xv.set_timeUnit "miliseconds")) ].

Definition parse_field_time_unit (it : input_it) : M t unit :=
  tok <- deref toks it ;;
  found <- parser_base.simple_switch tok time_unit_handlers ;;
  if found : bool then ret tt
  else throw (runtime_error "Missing or invalid TIME_UNIT type").

Definition mapping_table : list (string * @parser_base.command_info t) :=
  [ ("TYPE",      {| parser_base.number_required_arguments := 1;
                     parser_base.parse_function := parser_base.point_fn parse_field_type |});
    ("BIN",       {| parser_base.number_required_arguments := 1;
                     parser_base.parse_function := parser_base.range_fn parse_field_bin |});
    ("AGGREGATE", {| parser_base.number_required_arguments := 1;
                     parser_base.parse_function := parser_base.range_fn parse_field_aggregate |});
    ("TIME_UNIT", {| parser_base.number_required_arguments := 1;
                     parser_base.parse_function := parser_base.point_fn parse_field_time_unit |}) ].

Definition parse_step : @parser_base.range_it_fun t :=
  parser_base.parse_step toks mapping_table.

Definition parse_loop : @parser_base.range_it_fun t :=
  parser_base.parse_loop toks mapping_table parse_init fuel.
End grammar.
End field_parser.

(** ** mark_parser *)

Module mark_parser.
Section grammar.
Context {E : Externals}.
Variable fuel : nat.
Variable toks : list string.

(** The data member is [xv::Chart& chart]. *)
Definition t : Type := xv.Chart.

Definition mark_handlers : list (string * @parser_base.free_fun t) :=
  [ ("ARC",    modify (xv.set_mark xv.mark_arc));
    ("AREA",   modify (xv.set_mark xv.mark_area));
    ("BAR",    modify (xv.set_mark xv.mark_bar));
    ("CIRCLE", modify (xv.set_mark xv.mark_circle));
    ("LINE",   modify (xv.set_mark xv.mark_line));
    ("POINT",  modify (xv.set_mark xv.mark_point));
    ("RECT",   modify (xv.set_mark xv.mark_rect));
    ("RULE",   modify (xv.set_mark xv.mark_rule));
    ("SQUARE", modify (xv.set_mark xv.mark_square));
    ("TICK",   modify (xv.set_mark xv.mark_tick));
    ("TRAIL",  modify (xv.set_mark xv.mark_trail)) ].

Definition parse_init (begin end_ : input_it) : M t input_it :=
  tok <- deref toks begin ;;
  found <- parser_base.simple_switch tok mark_handlers ;;
  if found : bool then ret (begin + 1)
  else throw (runtime_error "Missing or invalid MARK type").

(** [to_any_visitor<xtl::xclosure_wrapper<U&>>(f)]: the entry for the
    class [U], whose visitor casts the [any] to that class and calls
    [f]. *)
Definition to_any_visitor (U : xv.mark_kind) (f : xv.mark -> M t unit)
  : xv.type_index * (xv.xany -> M t unit) :=
  (Some U,
   fun a =>
     match a with
     | Some m =>
         if xv.mark_kind_eqb (xv.kind m) U then f m
         else throw bad_any_cast
     | None => throw bad_any_cast
     end).

(** [[&](auto mark_generic) { mark_generic.get().color = to_lower( *it); }] *)
Definition set_color_visitor (it : input_it) (mark_generic : xv.mark) : M t unit :=
  tok <- deref toks it ;;
  modify (xv.set_mark (xv.set_color (to_lower tok) mark_generic)).

Definition color_visitors (it : input_it) : @parser_base.visitor_map_type t xv.xany xv.type_index :=
  [ to_any_visitor xv.arc    (set_color_visitor it);
    to_any_visitor xv.area   (set_color_visitor it);
    to_any_visitor xv.bar    (set_color_visitor it);
    to_any_visitor xv.circle (set_color_visitor it);
    to_any_visitor xv.line   (set_color_visitor it);
    to_any_visitor xv.point  (set_color_visitor it);
    to_any_visitor xv.rect   (set_color_visitor it);
    to_any_visitor xv.rule   (set_color_visitor it);
    to_any_visitor xv.square (set_color_visitor it);
    to_any_visitor xv.tick   (set_color_visitor it);
    to_any_visitor xv.trail  (set_color_visitor it) ].

Definition visit_any : xv.xany -> parser_base.visitor_map_type -> M t unit :=
  parser_base.visit_any xv.type_index_eqb xv.type_of xv.type_name.

Definition parse_color (it : input_it) : M t unit :=
  let any_visitor := color_visitors it in
  a <- gets xv.mark_ ;;
  visit_any a any_visitor.

Definition mapping_table : list (string * @parser_base.command_info t) :=
  [ ("COLOR", {| parser_base.number_required_arguments := 1;
                 parser_base.parse_function := parser_base.point_fn parse_color |}) ].

Definition parse_step : @parser_base.range_it_fun t :=
  parser_base.parse_step toks mapping_table.

Definition parse_loop : @parser_base.range_it_fun t :=
  parser_base.parse_loop toks mapping_table parse_init fuel.
End grammar.
End mark_parser.

(** ** xv_sqlite_parser *)

Module xv_sqlite_parser.
Section grammar.
Context {E : Externals}.
Variable fuel : nat.
Variable toks : list string.

(** The data member is [xv::Chart& chart]. *)
Definition t : Type := xv.Chart.

Definition parse_init (begin end_ : input_it) : M t input_it :=
  let ac := {| xv.grid := Some true |} in
  let cf := {| xv.axis := Some ac |} in
  modify (xv.set_config cf) ;;
  ret begin.

Definition parse_width (it : input_it) : M t unit :=
  tok <- deref toks it ;;
  v <- lift_conv (stoi tok) ;;
  modify (xv.set_width v).

Definition parse_height (it : input_it) : M t unit :=
  tok <- deref toks it ;;
  v <- lift_conv (stoi tok) ;;
  modify (xv.set_height v).

Definition parse_x_field (begin end_ : input_it) : M t input_it :=
  let x_enc := xv.Channel0 in
  modify (xv.set_x x_enc) ;;
  zoom xv.x_value xv.set_x (field_parser.parse_loop fuel toks begin end_).

Definition parse_y_field (begin end_ : input_it) : M t input_it :=
  let y_enc := xv.Channel0 in
  modify (xv.set_y y_enc) ;;
  zoom xv.y_value xv.set_y (field_parser.parse_loop fuel toks begin end_).

Definition parse_mark (input end_ : input_it) : M t input_it :=
  mark_parser.parse_loop fuel toks input end_.

Definition grid_handlers : list (string * @parser_base.free_fun t) :=
  [ ("TRUE",  modify (xv.set_grid true));
    ("FALSE", modify (xv.set_grid false)) ].

Definition parse_grid (it : input_it) : M t unit :=
  tok <- deref toks it ;;
  found <- parser_base.simple_switch tok grid_handlers ;;
  if found : bool then ret tt
  else throw (runtime_error "Missing or invalid GRID type").

(** The vector [v] built from the token is dropped. *)
Definition parse_title (it : input_it) : M t unit :=
  tok <- deref toks it ;;
  ret tt.

Definition mapping_table : list (string * @parser_base.command_info t) :=
  [ ("WIDTH",   {| parser_base.number_required_arguments := 1;
                   parser_base.parse_function := parser_base.point_fn parse_width |});
    ("HEIGHT",  {| parser_base.number_required_arguments := 1;
                   parser_base.parse_function := parser_base.point_fn parse_height |});
    ("X_FIELD", {| parser_base.number_required_arguments := 1;
                   parser_base.parse_function := parser_base.range_fn parse_x_field |});
    ("Y_FIELD", {| parser_base.number_required_arguments := 1;
                   parser_base.parse_function := parser_base.range_fn parse_y_field |});
    ("MARK",    {| parser_base.number_required_arguments := 1;
                   parser_base.parse_function := parser_base.range_fn parse_mark |});
    ("GRID",    {| parser_base.number_required_arguments := 1;
                   parser_base.parse_function := parser_base.point_fn parse_grid |});
    ("TITLE",   {| parser_base.number_required_arguments := 1;
                   parser_base.parse_function := parser_base.point_fn parse_title |}) ].

Definition parse_step : @parser_base.range_it_fun t :=
  parser_base.parse_step toks mapping_table.

Definition parse_loop : @parser_base.range_it_fun t :=
  parser_base.parse_loop toks mapping_table parse_init fuel.
End grammar.
End xv_sqlite_parser.

(** ** process_xvega_input *)

Section process.
Context {E : Externals} {json : Type}.
(** [xv::mime_bundle_repr], the serialiser of xvega. *)
Variable mime_bundle_repr : xv.Chart -> json.

(** The chart handed to the parser: a fresh chart with empty encodings
    and the data frame. *)
Definition initial_chart (xv_sqlite_df : df_type) : xv.Chart :=
  xv.set_data xv_sqlite_df (xv.set_encoding xv.Encodings0 xv.Chart0).

Definition process_xvega_input_fuel (fuel : nat)
    (tokenized_input : list string) (xv_sqlite_df : df_type) : M unit json :=
  r <- run_nested (initial_chart xv_sqlite_df)
         (xv_sqlite_parser.parse_loop fuel tokenized_input
            0 (List.length tokenized_input)) ;;
  let last_parsed := fst r in
  let chart := snd r in
  if negb (last_parsed =? List.length tokenized_input)
  then throw (runtime_error "This is not a valid command for SQLite XVega.")
  else ret (mime_bundle_repr chart).

(** No [parse_loop] started on a vector of [n] tokens iterates more than
    [n + 1] times (see [process_fuel_suffices] below). *)
Definition enough_fuel (tokenized_input : list string) : nat :=
  S (S (List.length tokenized_input)).

Definition process_xvega_input (tokenized_input : list string)
    (xv_sqlite_df : df_type) : M unit json :=
  process_xvega_input_fuel (enough_fuel tokenized_input)
    tokenized_input xv_sqlite_df.
End process.

(** The externals used to run the interpreter on token lists that hold no
    number for [std::stod]: a conversion, if one were asked for, fails. *)
Definition no_numbers : Externals :=
  {| double := Empty_set;
     stod := fun _ => inl (invalid_argument "stod");
     df_type := unit |}.

Definition run_chart (toks : list string) : outcome (st unit) (@xv.Chart no_numbers) :=
  process_xvega_input (E := no_numbers) (fun chart => chart) toks tt (tt, []).

(** The value an effect of an enumeration leaves in the property it
    writes, read off a run of the effect on a fresh object. *)
Definition aggregate_stored {E : Externals} (h : @parser_base.free_fun xv.Channel)
  : option string :=
  match h (xv.Channel0, []) with
  | Ok _ s' => xv.aggregate (fst s')
  | _ => None
  end.

Definition timeUnit_stored {E : Externals} (h : @parser_base.free_fun xv.Channel)
  : option string :=
  match h (xv.Channel0, []) with
  | Ok _ s' => xv.timeUnit (fst s')
  | _ => None
  end.

Definition mark_stored {E : Externals} (h : @parser_base.free_fun xv.Chart)
  : xv.xany :=
  match h (xv.Chart0, []) with
  | Ok _ s' => xv.mark_ (fst s')
  | _ => None
  end.

(** The token lists of the scenarios of the specification. *)
Definition scenario_A : list string :=
  ["X_FIELD"; "price"; "TYPE"; "QUANTITATIVE"; "Y_FIELD"; "qty"; "TYPE";
   "ORDINAL"; "MARK"; "BAR"; "COLOR"; "RED"; "GRID"; "TRUE"].
Definition scenario_B : list string := ["MARK"; "BAR"; "COLOR"; "RED"].
Definition scenario_C : list string := ["WIDTH"; "400"; "FOO"].

(** ** Predicates used in the statements *)

(** A function from a range [(begin, end)] to a cursor never hands back a
    cursor before [begin]. *)
Definition monotone {T} (h : @parser_base.range_it_fun T) : Prop :=
  forall begin end_ s c s', h begin end_ s = Ok c s' -> begin <= c.

(** Every range function of a table is [monotone]. *)
Definition table_monotone {T} (table : list (string * @parser_base.command_info T)) : Prop :=
  forall k info h,
    In (k, info) table ->
    parser_base.parse_function info = parser_base.range_fn h ->
    monotone h.

(** A computation that never runs out of fuel. *)
Definition total {T A} (m : M T A) : Prop := forall s, m s <> Diverge.

Definition table_total {T} (table : list (string * @parser_base.command_info T)) : Prop :=
  forall k info,
    In (k, info) table ->
    match parser_base.parse_function info with
    | parser_base.point_fn f => forall it, total (f it)
    | parser_base.range_fn f => forall begin end_, total (f begin end_)
    end.

(** The loop of a grammar in the words of the specification: from the
    cursor that the init step left, [step] is called again and again; the
    loop halts with the current cursor when the cursor is [end] or when a
    call to [step] hands back the cursor it was given, and it ends with
    the outcome of [step] when that call does not return. *)
Inductive loop_spec {T} (step : @parser_base.range_it_fun T) (end_ : input_it)
  : input_it -> st T -> outcome (st T) input_it -> Prop :=
| loop_at_end : forall s,
    loop_spec step end_ end_ s (Ok end_ s)
| loop_no_progress : forall it s s',
    it <> end_ ->
    step it end_ s = Ok it s' ->
    loop_spec step end_ it s (Ok it s')
| loop_progress : forall it s next s' r,
    it <> end_ ->
    step it end_ s = Ok next s' ->
    next <> it ->
    loop_spec step end_ next s' r ->
    loop_spec step end_ it s r
| loop_abort : forall it s r,
    it <> end_ ->
    step it end_ s = r ->
    (forall c s', r <> Ok c s') ->
    loop_spec step end_ it s r.

(** ** Predicates used in the further properties *)

(** A computation started in a state that satisfies [P] returns with a
    result and a state that satisfy [Q], or throws an exception that
    satisfies [X] (or reads out of range, or runs out of fuel). *)
Definition triple {T A} (P : st T -> Prop) (m : M T A)
    (Q : A -> st T -> Prop) (X : exception -> Prop) : Prop :=
  forall s, P s ->
    match m s with
    | Ok a s' => Q a s'
    | Throw e => X e
    | Undefined => True
    | Diverge => True
    end.

(** The output [out] is the output [out0] followed by lines that
    [parse_step] prints for tokens of [toks], and by nothing else. *)
Definition trace_of (toks : list string) (out0 out : list string) : Prop :=
  exists lines,
    out = (out0 ++ lines)%list
    /\ Forall (fun line => exists tok, In tok toks /\ line = parsing_line tok) lines.

(** The errors of the handlers of the four grammars: a value that matches
    no keyword of its enumeration, a binning grammar that applied nothing,
    and what [std::stoi] and [std::stod] throw for a token. *)
Definition handler_error {E : Externals} (toks : list string) (e : exception)
  : Prop :=
  In e (map runtime_error
          ["Missing or invalid BIN type"; "Missing or invalid TYPE type";
           "Missing or invalid AGGREGATE type";
           "Missing or invalid TIME_UNIT type"; "Missing or invalid MARK type";
           "Missing or invalid GRID type"])
  \/ (exists tok, In tok toks /\ stoi tok = inl e)
  \/ (exists tok, In tok toks /\ stod tok = inl e).

Definition type_stored {E : Externals} (h : @parser_base.free_fun xv.Channel)
  : option string :=
  match h (xv.Channel0, []) with
  | Ok _ s' => xv.type (fst s')
  | _ => None
  end.

(** A binning object with at least one attribute set or the counter at
    zero, never both. *)
Definition bin_counted {E : Externals} (p : bin_parser.t) : Prop :=
  (0 <= bin_parser.num_parsed_attrs p)%Z
  /\ (bin_parser.num_parsed_attrs p = 0%Z <-> bin_parser.bin p = xv.Bin0).

(** A field encoding as the field grammar leaves it: the identifier
    [name], a type, an aggregate and a time unit among those that the
    enumerations store, and no binning object without attributes. *)
Definition field_well_formed {E : Externals} (name : string) (c : xv.Channel)
  : Prop :=
  xv.field c = Some name
  /\ In (xv.type c) (map (fun kh => type_stored (snd kh)) field_parser.type_handlers)
  /\ (xv.aggregate c = None
      \/ In (xv.aggregate c)
            (map (fun kh => aggregate_stored (snd kh)) field_parser.aggregate_handlers))
  /\ (xv.timeUnit c = None
      \/ In (xv.timeUnit c)
            (map (fun kh => timeUnit_stored (snd kh)) field_parser.time_unit_handlers))
  /\ xv.bin c <> Some (inr xv.Bin0).

(** Two charts that differ at most in the mark. *)
Definition same_but_mark {E : Externals} (c c' : xv.Chart) : Prop :=
  xv.data c' = xv.data c /\ xv.encoding c' = xv.encoding c
  /\ xv.width c' = xv.width c /\ xv.height c' = xv.height c
  /\ xv.config c' = xv.config c.

(** What the loop of each grammar keeps true of the state of its parser,
    from a state with output [out0] on. *)
Definition bin_inv {E : Externals} (toks out0 : list string)
    (s : st bin_parser.t) : Prop :=
  trace_of toks out0 (snd s) /\ bin_counted (fst s).

Definition field_inv {E : Externals} (toks out0 : list string) (name : string)
    (s : st xv.Channel) : Prop :=
  trace_of toks out0 (snd s) /\ field_well_formed name (fst s).

Definition mark_inv {E : Externals} (toks out0 : list string) (c0 : xv.Chart)
    (k : xv.mark_kind) (s : st xv.Chart) : Prop :=
  trace_of toks out0 (snd s)
  /\ same_but_mark c0 (fst s)
  /\ exists col, xv.mark_ (fst s) = Some {| xv.kind := k; xv.color := col |}.

Definition chart_inv {E : Externals} (toks out0 : list string) (df : df_type)
    (s : st xv.Chart) : Prop :=
  trace_of toks out0 (snd s)
  /\ xv.data (fst s) = Some df
  /\ xv.encoding (fst s) <> None
  /\ exists b,
       xv.config (fst s) = Some {| xv.axis := Some {| xv.grid := Some b |} |}.

(** A field encoding before the field grammar has run on it. *)
Definition field_fresh {E : Externals} (c : xv.Channel) : Prop :=
  xv.aggregate c = None /\ xv.timeUnit c = None /\ xv.bin c = None.

(** * Properties *)

(** ** The model on concrete inputs *)

Example stoi_400 : stoi "400" = inr 400%Z.
Proof. reflexivity. Qed.

Example stoi_stops_at_a_letter : stoi " -12abc" = inr (-12)%Z.
Proof. reflexivity. Qed.

Example stoi_no_digit : stoi "abc" = inl (invalid_argument "stoi").
Proof. reflexivity. Qed.

Example stoi_not_an_int : stoi "2147483648" = inl (out_of_range "stoi").
Proof. reflexivity. Qed.

Example to_upper_keyword : to_upper "Time_Unit" = "TIME_UNIT".
Proof. reflexivity. Qed.

(** Scenario A of the specification: the whole list is consumed and the
    chart holds both fields, the bar with its colour and the grid. The
    keyword that ends a nested grammar is printed twice, by the nested
    [parse_step] that does not know it and by the one that does. *)
Example scenario_A_parses :
  run_chart scenario_A
  = Ok {| xv.data := Some (tt : @df_type no_numbers);
          xv.encoding :=
            Some {| xv.x := Some {| xv.field := Some "price";
                                    xv.type := Some "quantitative";
                                    xv.bin := None;
                                    xv.aggregate := None;
                                    xv.timeUnit := None |};
                    xv.y := Some {| xv.field := Some "qty";
                                    xv.type := Some "ordinal";
                                    xv.bin := None;
                                    xv.aggregate := None;
                                    xv.timeUnit := None |} |};
          xv.mark_ := Some {| xv.kind := xv.bar; xv.color := Some "red" |};
          xv.width := None;
          xv.height := None;
          xv.config := Some {| xv.axis := Some {| xv.grid := Some true |} |} |}
       (tt, map parsing_line
              ["X_FIELD"; "TYPE"; "Y_FIELD"; "Y_FIELD"; "TYPE"; "MARK"; "MARK";
               "COLOR"; "GRID"; "GRID"]).
Proof. vm_compute. reflexivity. Qed.

(** A binning grammar that applies one attribute, then the chart grammar
    again. *)
Example bin_then_width :
  match run_chart ["X_FIELD"; "price"; "BIN"; "nice"; "true"; "WIDTH"; "400"] with
  | Ok chart _ =>
      xv.width chart = Some 400%Z
      /\ option_map xv.bin (xv.x (xv.encoding_value chart))
         = Some (Some (inr (xv.set_nice true xv.Bin0)))
  | _ => False
  end.
Proof. vm_compute. split; reflexivity. Qed.

(** ** The monad *)

Ltac bind_inv H :=
  unfold bind in H;
  match type of H with
  | context [match ?m ?s with _ => _ end] =>
      let E := fresh "E" in
      destruct (m s) as [? ? | ? | | ] eqn:E; try discriminate H
  end.

Lemma deref_Ok T toks it (s : st T) tok s' :
  deref toks it s = Ok tok s' -> nth_error toks it = Some tok /\ s' = s.
Proof.
  unfold deref. destruct (nth_error toks it); intros H; inversion H; auto.
Qed.

Lemma deref_lt T toks it (s : st T) tok s' :
  deref toks it s = Ok tok s' -> it < List.length toks.
Proof.
  intros H. apply deref_Ok in H. destruct H as [H _].
  apply nth_error_Some. congruence.
Qed.

Lemma deref_total T toks it : total (@deref T toks it).
Proof. intros s. unfold deref. destruct (nth_error toks it); discriminate. Qed.

Lemma bind_total T A B (m : M T A) (k : A -> M T B) :
  total m -> (forall a, total (k a)) -> total (bind m k).
Proof.
  intros Hm Hk s. unfold bind. specialize (Hm s).
  destruct (m s); [apply Hk | discriminate | discriminate | congruence].
Qed.

Lemma ret_total T A (a : A) : total (@ret T A a).
Proof. intros s; discriminate. Qed.

Lemma throw_total T A e : total (@throw T A e).
Proof. intros s; discriminate. Qed.

Lemma print_total T line : total (@print T line).
Proof. intros s; discriminate. Qed.

Lemma modify_total T f : total (@modify T f).
Proof. intros s; discriminate. Qed.

Lemma gets_total T A f : total (@gets T A f).
Proof. intros s; discriminate. Qed.

Lemma lift_conv_total T A r : total (@lift_conv T A r).
Proof. destruct r; intros s; discriminate. Qed.

Lemma run_nested_total T T' A (t0 : T') (m : M T' A) :
  total m -> total (@run_nested T T' A t0 m).
Proof.
  intros Hm s. unfold run_nested. specialize (Hm (t0, snd s)).
  destruct (m (t0, snd s)); [discriminate | discriminate | discriminate | congruence].
Qed.

Lemma zoom_total T T' A get set (m : M T' A) :
  total m -> total (@zoom T T' A get set m).
Proof.
  intros Hm s. unfold zoom. specialize (Hm (get (fst s), snd s)).
  destruct (m (get (fst s), snd s));
    [discriminate | discriminate | discriminate | congruence].
Qed.

Lemma bind_ext T A B (m : M T A) (k1 k2 : A -> M T B) s :
  (forall a s', k1 a s' = k2 a s') -> bind m k1 s = bind m k2 s.
Proof. intros H. unfold bind. destruct (m s); auto. Qed.

Lemma run_nested_Ok T T' A (t0 : T') (m : M T' A) (s : st T) r s' :
  run_nested t0 m s = Ok r s' ->
  m (t0, snd s) = Ok (fst r) (snd r, snd s') /\ fst s' = fst s.
Proof.
  unfold run_nested. destruct (m (t0, snd s)) as [a [t out]| | |]; try discriminate.
  intros H. inversion H. subst. auto.
Qed.

Lemma zoom_Ok T T' A get set (m : M T' A) (s : st T) a s' :
  zoom get set m s = Ok a s' ->
  exists t', m (get (fst s), snd s) = Ok a (t', snd s') /\ fst s' = set t' (fst s).
Proof.
  unfold zoom. destruct (m (get (fst s), snd s)) as [b [t out]| | |]; try discriminate.
  intros H. inversion H. subst. eauto.
Qed.

Create HintDb total.

#[local] Hint Resolve deref_total bind_total ret_total throw_total print_total
  modify_total gets_total lift_conv_total run_nested_total zoom_total : total.

(** ** Table lookup *)

Lemma find_In V key (table : list (string * V)) v :
  find key table = Some v -> In (key, v) table.
Proof.
  induction table as [|[k w] rest IH]; simpl; [discriminate|].
  destruct (String.eqb key k) eqn:Ek.
  - intros H. inversion H. apply String.eqb_eq in Ek. subst. auto.
  - auto.
Qed.

Lemma find_None V key (table : list (string * V)) :
  find key table = None <-> ~ In key (map fst table).
Proof.
  induction table as [|[k w] rest IH]; simpl.
  - tauto.
  - destruct (String.eqb key k) eqn:Ek.
    + apply String.eqb_eq in Ek. split; [discriminate | intros H; exfalso; auto].
    + apply String.eqb_neq in Ek. rewrite IH. intuition congruence.
Qed.

(** ** The engine: cursors never move backward *)

Section engine_facts.
Context {T : Type}.
Variable toks : list string.
Variable mapping_table : list (string * @parser_base.command_info T).
Variable parse_init : @parser_base.range_it_fun T.

Local Abbreviation parse_step := (parser_base.parse_step toks mapping_table).
Local Abbreviation parse_while := (parser_base.parse_while toks mapping_table).
Local Abbreviation parse_loop := (parser_base.parse_loop toks mapping_table parse_init).

Lemma parse_step_reads begin end_ s c s' :
  parse_step begin end_ s = Ok c s' -> begin < List.length toks.
Proof.
  unfold parse_step, parser_base.parse_step. intros H.
  bind_inv H. eapply deref_lt; eauto.
Qed.

Lemma parse_step_monotone :
  table_monotone mapping_table -> monotone parse_step.
Proof.
  intros Htab begin end_ s c s' H.
  unfold parse_step, parser_base.parse_step in H.
  bind_inv H. bind_inv H.
  destruct (find (to_upper a) mapping_table) as [info|] eqn:Ef.
  - destruct (distance begin end_ <? parser_base.number_required_arguments info)%Z;
      [discriminate|].
    destruct (parser_base.parse_function info) as [f|f] eqn:Ep.
    + bind_inv H. inversion H. lia.
    + apply find_In in Ef. apply (Htab _ _ _ Ef Ep) in H. lia.
  - inversion H. lia.
Qed.

Lemma parse_while_monotone :
  table_monotone mapping_table -> forall fuel, monotone (parse_while fuel).
Proof.
  intros Htab fuel. induction fuel as [|fuel IH]; intros it end_ s c s' H.
  - discriminate.
  - simpl in H. destruct (it =? end_) eqn:Ee.
    + inversion H. lia.
    + bind_inv H. apply parse_step_monotone in E; auto.
      destruct (a =? it) eqn:Ea.
      * inversion H. lia.
      * apply IH in H. lia.
Qed.

Lemma parse_loop_monotone :
  monotone parse_init -> table_monotone mapping_table ->
  forall fuel, monotone (parse_loop fuel).
Proof.
  intros Hinit Htab fuel begin end_ s c s' H.
  unfold parse_loop, parser_base.parse_loop in H. bind_inv H.
  apply Hinit in E. apply parse_while_monotone in H; auto. lia.
Qed.

End engine_facts.

(** ** The engine: enough fuel *)

Section engine_fuel.
Context {T : Type}.
Variable toks : list string.

Lemma simple_switch_total token (handlers : list (string * @parser_base.free_fun T)) :
  (forall k h, In (k, h) handlers -> total h) ->
  total (parser_base.simple_switch token handlers).
Proof.
  intros Hh. unfold parser_base.simple_switch.
  destruct (find (to_upper token) handlers) as [h|] eqn:Ef; auto with total.
  apply find_In in Ef. apply Hh in Ef. auto with total.
Qed.

Lemma parse_step_total (table : list (string * @parser_base.command_info T)) :
  table_total table ->
  forall begin end_, total (parser_base.parse_step toks table begin end_).
Proof.
  intros Htab begin end_. unfold parser_base.parse_step.
  apply bind_total; auto with total. intros tok.
  apply bind_total; auto with total. intros _.
  destruct (find (to_upper tok) table) as [info|] eqn:Ef; auto with total.
  destruct (distance begin end_ <? parser_base.number_required_arguments info)%Z;
    auto with total.
  apply find_In in Ef. apply Htab in Ef.
  destruct (parser_base.parse_function info); auto with total.
Qed.

(** With more fuel than there are tokens from the cursor to the end of
    the vector, the loop of a grammar whose range functions are
    [monotone] does not run out of fuel, and its outcome is the same for
    two such amounts of fuel. The two tables stand for the table of one
    grammar built with either amount. *)
Lemma parse_while_fuel (table1 table2 : list (string * @parser_base.command_info T)) :
  (forall it end_ s, parser_base.parse_step toks table1 it end_ s
                     = parser_base.parse_step toks table2 it end_ s) ->
  table_monotone table1 ->
  forall fuel1 fuel2 it end_ s,
    List.length toks < fuel1 + it -> 0 < fuel1 ->
    List.length toks < fuel2 + it -> 0 < fuel2 ->
    parser_base.parse_while toks table1 fuel1 it end_ s
    = parser_base.parse_while toks table2 fuel2 it end_ s.
Proof.
  intros Hstep Hmono.
  induction fuel1 as [|fuel1 IH]; intros fuel2 it end_ s H1 P1 H2 P2; [lia|].
  destruct fuel2 as [|fuel2]; [lia|]. simpl.
  destruct (it =? end_); [reflexivity|].
  unfold bind. rewrite <- Hstep.
  destruct (parser_base.parse_step toks table1 it end_ s) as [next s'| | |] eqn:E;
    try reflexivity.
  pose proof (parse_step_reads _ _ _ _ _ _ _ E) as Hlt.
  pose proof (parse_step_monotone _ _ Hmono _ _ _ _ _ E) as Hle.
  destruct (next =? it) eqn:En; [reflexivity|].
  apply Nat.eqb_neq in En. apply IH; lia.
Qed.

Lemma parse_while_total (table : list (string * @parser_base.command_info T)) :
  table_monotone table -> table_total table ->
  forall fuel it end_,
    List.length toks < fuel + it -> 0 < fuel ->
    total (parser_base.parse_while toks table fuel it end_).
Proof.
  intros Hmono Htot.
  induction fuel as [|fuel IH]; intros it end_ H P s; [lia|]. simpl.
  destruct (it =? end_); [discriminate|].
  unfold bind.
  destruct (parser_base.parse_step toks table it end_ s) as [next s'| | |] eqn:E;
    try discriminate.
  - pose proof (parse_step_reads _ _ _ _ _ _ _ E) as Hlt.
    pose proof (parse_step_monotone _ _ Hmono _ _ _ _ _ E) as Hle.
    destruct (next =? it) eqn:En; [discriminate|].
    apply Nat.eqb_neq in En. apply IH; lia.
  - exfalso. eapply parse_step_total; eauto.
Qed.

Lemma parse_loop_fuel (table1 table2 : list (string * @parser_base.command_info T))
    (parse_init : @parser_base.range_it_fun T) :
  (forall it end_ s, parser_base.parse_step toks table1 it end_ s
                     = parser_base.parse_step toks table2 it end_ s) ->
  table_monotone table1 ->
  forall fuel1 fuel2 begin end_ s,
    List.length toks < fuel1 -> List.length toks < fuel2 ->
    parser_base.parse_loop toks table1 parse_init fuel1 begin end_ s
    = parser_base.parse_loop toks table2 parse_init fuel2 begin end_ s.
Proof.
  intros Hstep Hmono fuel1 fuel2 begin end_ s H1 H2.
  unfold parser_base.parse_loop, bind.
  destruct (parse_init begin end_ s); try reflexivity.
  apply parse_while_fuel; auto; lia.
Qed.

Lemma parse_loop_total (table : list (string * @parser_base.command_info T))
    (parse_init : @parser_base.range_it_fun T) :
  (forall begin end_, total (parse_init begin end_)) ->
  table_monotone table -> table_total table ->
  forall fuel begin end_,
    List.length toks < fuel ->
    total (parser_base.parse_loop toks table parse_init fuel begin end_).
Proof.
  intros Hinit Hmono Htot fuel begin end_ H.
  unfold parser_base.parse_loop. apply bind_total; auto.
  intros it. apply parse_while_total; auto; lia.
Qed.
End engine_fuel.

(** ** The four grammars: monotone, total, independent of the fuel *)

Ltac in_table H :=
  simpl in H;
  repeat (destruct H as [H|H];
          [first [injection H as ? ?; subst | subst]|]);
  try contradiction.

Lemma init_monotone T : monotone (@parser_base.parse_init T).
Proof. intros begin end_ s c s' H. inversion H. lia. Qed.

Lemma init_total T begin end_ : total (@parser_base.parse_init T begin end_).
Proof. intros s; discriminate. Qed.

Section grammar_facts.
Context {E : Externals}.
Variable toks : list string.

(** *** bin_parser *)

Lemma bin_table_monotone : table_monotone (bin_parser.mapping_table toks).
Proof. intros k info h Hin Hf. in_table Hin; discriminate Hf. Qed.

Lemma bin_incr_total : total bin_parser.incr_num_parsed_attrs.
Proof.
  intros s. unfold bin_parser.incr_num_parsed_attrs.
  destruct (_ =? _)%Z; discriminate.
Qed.

Lemma bin_table_total : table_total (bin_parser.mapping_table toks).
Proof.
  pose proof bin_incr_total.
  intros k info Hin. in_table Hin; simpl; intros it;
    unfold bin_parser.parse_bin_anchor, bin_parser.parse_bin_base,
      bin_parser.parse_bin_binned, bin_parser.parse_bin_maxbins,
      bin_parser.parse_bin_minstep, bin_parser.parse_bin_nice,
      bin_parser.parse_bin_step;
    repeat (apply bind_total; [|intros ?]); auto with total;
    apply simple_switch_total; intros k h Hin; in_table Hin; auto with total.
Qed.

Lemma bin_step_monotone : monotone (bin_parser.parse_step toks).
Proof. apply parse_step_monotone, bin_table_monotone. Qed.

Lemma bin_loop_monotone fuel : monotone (bin_parser.parse_loop fuel toks).
Proof.
  apply parse_loop_monotone; [apply init_monotone | apply bin_table_monotone].
Qed.

Lemma bin_loop_total fuel begin end_ :
  List.length toks < fuel -> total (bin_parser.parse_loop fuel toks begin end_).
Proof.
  intros H. apply parse_loop_total; auto.
  - apply init_total.
  - apply bin_table_monotone.
  - apply bin_table_total.
Qed.

Lemma bin_loop_fuel fuel1 fuel2 begin end_ s :
  List.length toks < fuel1 -> List.length toks < fuel2 ->
  bin_parser.parse_loop fuel1 toks begin end_ s
  = bin_parser.parse_loop fuel2 toks begin end_ s.
Proof.
  intros H1 H2. apply parse_loop_fuel; auto. apply bin_table_monotone.
Qed.

(** *** field_parser *)

Lemma field_init_monotone : monotone (field_parser.parse_init toks).
Proof.
  intros begin end_ s c s' H. unfold field_parser.parse_init in H.
  bind_inv H. bind_inv H. bind_inv H. inversion H. lia.
Qed.

Lemma field_bin_monotone fuel : monotone (field_parser.parse_field_bin fuel toks).
Proof.
  intros begin end_ s c s' H. unfold field_parser.parse_field_bin in H.
  bind_inv H. bind_inv H. destruct a0.
  - inversion H. lia.
  - bind_inv H.
    match goal with
    | Hr : run_nested _ _ _ = Ok _ _ |- _ =>
        apply run_nested_Ok in Hr; destruct Hr as [Hr _];
        apply bin_loop_monotone in Hr
    end.
    destruct (_ =? 0)%Z; [discriminate|].
    bind_inv H. inversion H. subst. assumption.
Qed.

Lemma field_aggregate_monotone : monotone (field_parser.parse_field_aggregate toks).
Proof.
  intros begin end_ s c s' H. unfold field_parser.parse_field_aggregate in H.
  bind_inv H. bind_inv H. destruct a0; [|discriminate]. inversion H. lia.
Qed.

Lemma field_table_monotone fuel : table_monotone (field_parser.mapping_table fuel toks).
Proof.
  intros k info h Hin Hf. in_table Hin; simpl in Hf; inversion Hf; subst.
  - apply field_bin_monotone.
  - apply field_aggregate_monotone.
Qed.

Lemma field_step_monotone fuel : monotone (field_parser.parse_step fuel toks).
Proof. apply parse_step_monotone, field_table_monotone. Qed.

Lemma field_loop_monotone fuel : monotone (field_parser.parse_loop fuel toks).
Proof.
  apply parse_loop_monotone; [apply field_init_monotone | apply field_table_monotone].
Qed.

Lemma field_init_total begin end_ : total (field_parser.parse_init toks begin end_).
Proof.
  unfold field_parser.parse_init.
  repeat (apply bind_total; [|intros ?]); auto with total.
Qed.

Lemma field_table_total fuel :
  List.length toks < fuel -> table_total (field_parser.mapping_table fuel toks).
Proof.
  intros Hfuel k info Hin. in_table Hin; simpl.
  - intros it. unfold field_parser.parse_field_type.
    repeat (apply bind_total; [|intros ?]); auto with total.
    + apply simple_switch_total. intros k h Hin. in_table Hin; auto with total.
    + destruct a0; auto with total.
  - intros begin end_. unfold field_parser.parse_field_bin.
    repeat (apply bind_total; [|intros ?]); auto with total.
    + apply simple_switch_total. intros k h Hin. in_table Hin; auto with total.
    + destruct a0; auto with total.
      apply bind_total.
      * apply run_nested_total, bin_loop_total, Hfuel.
      * intros r. destruct (_ =? 0)%Z; auto with total.
  - intros begin end_. unfold field_parser.parse_field_aggregate.
    repeat (apply bind_total; [|intros ?]); auto with total.
    + apply simple_switch_total. intros k h Hin. in_table Hin; auto with total.
    + destruct a0; auto with total.
  - intros it. unfold field_parser.parse_field_time_unit.
    repeat (apply bind_total; [|intros ?]); auto with total.
    + apply simple_switch_total. intros k h Hin. in_table Hin; auto with total.
    + destruct a0; auto with total.
Qed.

Lemma field_loop_total fuel begin end_ :
  List.length toks < fuel -> total (field_parser.parse_loop fuel toks begin end_).
Proof.
  intros H. apply parse_loop_total; auto.
  - apply field_init_total.
  - apply field_table_monotone.
  - apply field_table_total, H.
Qed.
End grammar_facts.

Section grammar_fuel.
Context {E : Externals}.
Variable toks : list string.
Variables fuel1 fuel2 : nat.
Hypothesis enough1 : List.length toks < fuel1.
Hypothesis enough2 : List.length toks < fuel2.

Lemma field_bin_fuel begin end_ s :
  field_parser.parse_field_bin fuel1 toks begin end_ s
  = field_parser.parse_field_bin fuel2 toks begin end_ s.
Proof.
  unfold field_parser.parse_field_bin.
  apply bind_ext; intros tok s0. apply bind_ext; intros [|] s1; [reflexivity|].
  unfold bind, run_nested. rewrite (bin_loop_fuel toks fuel1 fuel2); auto.
Qed.

Lemma field_step_fuel it end_ s :
  parser_base.parse_step toks (field_parser.mapping_table fuel1 toks) it end_ s
  = parser_base.parse_step toks (field_parser.mapping_table fuel2 toks) it end_ s.
Proof.
  unfold parser_base.parse_step.
  apply bind_ext; intros tok s0. apply bind_ext; intros _ s1.
  unfold field_parser.mapping_table. simpl.
  destruct (String.eqb (to_upper tok) "TYPE"); [reflexivity|].
  destruct (String.eqb (to_upper tok) "BIN").
  - simpl. destruct (_ <? _)%Z; [reflexivity|]. apply field_bin_fuel.
  - reflexivity.
Qed.

Lemma field_loop_fuel begin end_ s :
  field_parser.parse_loop fuel1 toks begin end_ s
  = field_parser.parse_loop fuel2 toks begin end_ s.
Proof.
  apply parse_loop_fuel; auto.
  - apply field_step_fuel.
  - apply field_table_monotone.
Qed.
End grammar_fuel.

Section chart_grammar_facts.
Context {E : Externals}.
Variable toks : list string.

(** *** mark_parser *)

Lemma mark_init_monotone : monotone (mark_parser.parse_init toks).
Proof.
  intros begin end_ s c s' H. unfold mark_parser.parse_init in H.
  bind_inv H. bind_inv H. destruct a0; [|discriminate]. inversion H. lia.
Qed.

Lemma mark_table_monotone : table_monotone (mark_parser.mapping_table toks).
Proof. intros k info h Hin Hf. in_table Hin; discriminate Hf. Qed.

Lemma mark_step_monotone : monotone (mark_parser.parse_step toks).
Proof. apply parse_step_monotone, mark_table_monotone. Qed.

Lemma mark_loop_monotone fuel : monotone (mark_parser.parse_loop fuel toks).
Proof.
  apply parse_loop_monotone; [apply mark_init_monotone | apply mark_table_monotone].
Qed.

Lemma mark_init_total begin end_ : total (mark_parser.parse_init toks begin end_).
Proof.
  unfold mark_parser.parse_init.
  repeat (apply bind_total; [|intros ?]); auto with total.
  - apply simple_switch_total. intros k h Hin. in_table Hin; auto with total.
  - destruct a0; auto with total.
Qed.

Lemma to_any_visitor_total U f a :
  (forall m, total (f m)) -> total (snd (mark_parser.to_any_visitor U f) a).
Proof.
  intros Hf. simpl. destruct a as [m|]; auto with total.
  destruct (xv.mark_kind_eqb (xv.kind m) U); auto with total.
Qed.

Lemma set_color_visitor_total it m : total (mark_parser.set_color_visitor toks it m).
Proof.
  unfold mark_parser.set_color_visitor.
  repeat (apply bind_total; [|intros ?]); auto with total.
Qed.

Lemma parse_color_total it : total (mark_parser.parse_color toks it).
Proof.
  unfold mark_parser.parse_color. apply bind_total; auto with total.
  intros a. unfold mark_parser.visit_any, parser_base.visit_any.
  destruct (parser_base.find_visitor _ _ _) as [visitor|] eqn:Ef; auto with total.
  unfold mark_parser.color_visitors in Ef. simpl in Ef.
  repeat match type of Ef with
         | (if ?b then _ else _) = _ =>
             destruct b;
             [inversion Ef; subst;
              apply (to_any_visitor_total _ (mark_parser.set_color_visitor toks it));
              apply set_color_visitor_total|]
         end.
  discriminate Ef.
Qed.

Lemma mark_table_total : table_total (mark_parser.mapping_table toks).
Proof. intros k info Hin. in_table Hin; simpl. apply parse_color_total. Qed.

Lemma mark_loop_total fuel begin end_ :
  List.length toks < fuel -> total (mark_parser.parse_loop fuel toks begin end_).
Proof.
  intros H. apply parse_loop_total; auto.
  - apply mark_init_total.
  - apply mark_table_monotone.
  - apply mark_table_total.
Qed.

Lemma mark_loop_fuel fuel1 fuel2 begin end_ s :
  List.length toks < fuel1 -> List.length toks < fuel2 ->
  mark_parser.parse_loop fuel1 toks begin end_ s
  = mark_parser.parse_loop fuel2 toks begin end_ s.
Proof.
  intros H1 H2. apply parse_loop_fuel; auto. apply mark_table_monotone.
Qed.

(** *** xv_sqlite_parser *)

Lemma chart_init_monotone : monotone (xv_sqlite_parser.parse_init).
Proof.
  intros begin end_ s c s' H. unfold xv_sqlite_parser.parse_init in H.
  bind_inv H. inversion H. lia.
Qed.

Lemma x_field_monotone fuel : monotone (xv_sqlite_parser.parse_x_field fuel toks).
Proof.
  intros begin end_ s c s' H. unfold xv_sqlite_parser.parse_x_field in H.
  bind_inv H. apply zoom_Ok in H. destruct H as [t' [H _]].
  apply field_loop_monotone in H. assumption.
Qed.

Lemma y_field_monotone fuel : monotone (xv_sqlite_parser.parse_y_field fuel toks).
Proof.
  intros begin end_ s c s' H. unfold xv_sqlite_parser.parse_y_field in H.
  bind_inv H. apply zoom_Ok in H. destruct H as [t' [H _]].
  apply field_loop_monotone in H. assumption.
Qed.

Lemma chart_table_monotone fuel :
  table_monotone (xv_sqlite_parser.mapping_table fuel toks).
Proof.
  intros k info h Hin Hf. in_table Hin; simpl in Hf; inversion Hf; subst.
  - apply x_field_monotone.
  - apply y_field_monotone.
  - apply mark_loop_monotone.
Qed.

Lemma chart_step_monotone fuel : monotone (xv_sqlite_parser.parse_step fuel toks).
Proof. apply parse_step_monotone, chart_table_monotone. Qed.

Lemma chart_loop_monotone fuel : monotone (xv_sqlite_parser.parse_loop fuel toks).
Proof.
  apply parse_loop_monotone; [apply chart_init_monotone | apply chart_table_monotone].
Qed.

Lemma chart_init_total begin end_ : total (xv_sqlite_parser.parse_init begin end_).
Proof.
  unfold xv_sqlite_parser.parse_init.
  repeat (apply bind_total; [|intros ?]); auto with total.
Qed.

Lemma chart_table_total fuel :
  List.length toks < fuel -> table_total (xv_sqlite_parser.mapping_table fuel toks).
Proof.
  intros Hfuel k info Hin. in_table Hin; simpl.
  - intros it. unfold xv_sqlite_parser.parse_width.
    repeat (apply bind_total; [|intros ?]); auto with total.
  - intros it. unfold xv_sqlite_parser.parse_height.
    repeat (apply bind_total; [|intros ?]); auto with total.
  - intros begin end_. unfold xv_sqlite_parser.parse_x_field.
    apply bind_total; auto with total. intros _.
    apply zoom_total, field_loop_total, Hfuel.
  - intros begin end_. unfold xv_sqlite_parser.parse_y_field.
    apply bind_total; auto with total. intros _.
    apply zoom_total, field_loop_total, Hfuel.
  - intros begin end_. apply mark_loop_total, Hfuel.
  - intros it. unfold xv_sqlite_parser.parse_grid.
    repeat (apply bind_total; [|intros ?]); auto with total.
    + apply simple_switch_total. intros k h Hin. in_table Hin; auto with total.
    + destruct a0; auto with total.
  - intros it. unfold xv_sqlite_parser.parse_title.
    repeat (apply bind_total; [|intros ?]); auto with total.
Qed.

Lemma chart_loop_total fuel begin end_ :
  List.length toks < fuel ->
  total (xv_sqlite_parser.parse_loop fuel toks begin end_).
Proof.
  intros H. apply parse_loop_total; auto.
  - apply chart_init_total.
  - apply chart_table_monotone.
  - apply chart_table_total, H.
Qed.

Lemma chart_step_fuel fuel1 fuel2 it end_ s :
  List.length toks < fuel1 -> List.length toks < fuel2 ->
  parser_base.parse_step toks (xv_sqlite_parser.mapping_table fuel1 toks) it end_ s
  = parser_base.parse_step toks (xv_sqlite_parser.mapping_table fuel2 toks) it end_ s.
Proof.
  intros H1 H2. unfold parser_base.parse_step.
  apply bind_ext; intros tok s0. apply bind_ext; intros _ s1.
  unfold xv_sqlite_parser.mapping_table. simpl.
  destruct (String.eqb (to_upper tok) "WIDTH"); [reflexivity|].
  destruct (String.eqb (to_upper tok) "HEIGHT"); [reflexivity|].
  destruct (String.eqb (to_upper tok) "X_FIELD").
  { simpl. destruct (_ <? _)%Z; [reflexivity|].
    unfold xv_sqlite_parser.parse_x_field. apply bind_ext; intros _ s2.
    unfold zoom. rewrite (field_loop_fuel toks fuel1 fuel2); auto. }
  destruct (String.eqb (to_upper tok) "Y_FIELD").
  { simpl. destruct (_ <? _)%Z; [reflexivity|].
    unfold xv_sqlite_parser.parse_y_field. apply bind_ext; intros _ s2.
    unfold zoom. rewrite (field_loop_fuel toks fuel1 fuel2); auto. }
  destruct (String.eqb (to_upper tok) "MARK").
  { simpl. destruct (_ <? _)%Z; [reflexivity|].
    unfold xv_sqlite_parser.parse_mark. apply mark_loop_fuel; auto. }
  reflexivity.
Qed.

Lemma chart_loop_fuel fuel1 fuel2 begin end_ s :
  List.length toks < fuel1 -> List.length toks < fuel2 ->
  xv_sqlite_parser.parse_loop fuel1 toks begin end_ s
  = xv_sqlite_parser.parse_loop fuel2 toks begin end_ s.
Proof.
  intros H1 H2. apply parse_loop_fuel; auto.
  - intros. apply chart_step_fuel; auto.
  - apply chart_table_monotone.
Qed.
End chart_grammar_facts.

(** ** process_xvega_input returns, throws or reads out of range: it
       never needs more fuel than [enough_fuel] *)

Lemma process_fuel_suffices {E : Externals} {json : Type}
    (mime_bundle_repr : xv.Chart -> json) fuel toks df s :
  List.length toks < fuel ->
  process_xvega_input_fuel mime_bundle_repr fuel toks df s
  = process_xvega_input mime_bundle_repr toks df s.
Proof.
  intros H. unfold process_xvega_input, process_xvega_input_fuel.
  unfold bind, run_nested.
  rewrite (chart_loop_fuel toks fuel (enough_fuel toks)); auto.
  unfold enough_fuel. lia.
Qed.

Lemma process_total {E : Externals} {json : Type}
    (mime_bundle_repr : xv.Chart -> json) toks df :
  total (process_xvega_input mime_bundle_repr toks df).
Proof.
  unfold process_xvega_input, process_xvega_input_fuel.
  apply bind_total.
  - apply run_nested_total, chart_loop_total. unfold enough_fuel. lia.
  - intros r. destruct (negb _); auto with total.
Qed.

(** ** The arity check of parse_step *)

(** The check compares [std::distance(it, end)], which counts the keyword
    itself, with the declared minimum: it fails exactly when there are
    fewer than [number_required_arguments - 1] tokens after the keyword. *)
Lemma arity_check_spec T (toks : list string)
    (table : list (string * @parser_base.command_info T))
    it end_ tok info (s : st T) :
  nth_error toks it = Some tok ->
  find (to_upper tok) table = Some info ->
  it < end_ ->
  let after := Z.of_nat (end_ - it - 1) in
  ((after + 1 < parser_base.number_required_arguments info)%Z ->
   parser_base.parse_step toks table it end_ s
   = Throw (runtime_error "Arguments missing."))
  /\ ((parser_base.number_required_arguments info <= after + 1)%Z ->
      parser_base.parse_step toks table it end_ s
      = match parser_base.parse_function info with
        | parser_base.point_fn f =>
            (f (S it) ;; ret (S (S it)))
              (fst s, (snd s ++ [parsing_line tok])%list)
        | parser_base.range_fn f =>
            f (S it) end_ (fst s, (snd s ++ [parsing_line tok])%list)
        end).
Proof.
  intros Htok Hfind Hlt after.
  assert (Hd : distance it end_ = (after + 1)%Z) by (unfold distance, after; lia).
  unfold parser_base.parse_step, bind, deref. rewrite Htok. simpl.
  rewrite Hfind, Hd. split; intros H.
  - apply Z.ltb_lt in H. rewrite H. reflexivity.
  - apply Z.ltb_ge in H. rewrite H. destruct (parser_base.parse_function info); reflexivity.
Qed.

(** C1 (the code differs from the claim). The token list [WIDTH] has no
    token after the keyword, fewer than the minimum of one that the table
    declares for [WIDTH]; [parse_step] raises no arity failure there: it
    calls the handler, which reads the token at [end]. *)
Theorem C1_arity_check_counts_the_keyword {E : Externals} (fuel : nat)
    (s : st xv.Chart) :
  let toks := ["WIDTH"] in
  option_map parser_base.number_required_arguments
    (find (to_upper "WIDTH") (xv_sqlite_parser.mapping_table fuel toks)) = Some 1%Z
  /\ skipn 1 toks = []
  /\ xv_sqlite_parser.parse_step fuel toks 0 (List.length toks) s = Undefined.
Proof. repeat split. Qed.

(** ** The loop of a grammar *)

Section loop_facts.
Context {T : Type}.
Variable toks : list string.
Variable mapping_table : list (string * @parser_base.command_info T).

Local Abbreviation parse_step := (parser_base.parse_step toks mapping_table).
Local Abbreviation parse_while := (parser_base.parse_while toks mapping_table).

Lemma parse_while_sound fuel :
  forall it end_ s r,
    parse_while fuel it end_ s = r -> r <> Diverge ->
    loop_spec parse_step end_ it s r.
Proof.
  induction fuel as [|fuel IH]; intros it end_ s r H Hr.
  - simpl in H. congruence.
  - simpl in H. destruct (it =? end_) eqn:Ee.
    + apply Nat.eqb_eq in Ee. subst. apply loop_at_end.
    + apply Nat.eqb_neq in Ee. unfold bind in H.
      destruct (parser_base.parse_step toks mapping_table it end_ s)
        as [next s'| e | |] eqn:Es.
      * destruct (next =? it) eqn:En.
        -- apply Nat.eqb_eq in En. subst. apply loop_no_progress; auto.
        -- apply Nat.eqb_neq in En. eapply loop_progress; eauto.
      * subst. apply loop_abort; auto. discriminate.
      * subst. apply loop_abort; auto. discriminate.
      * subst. apply loop_abort; auto.
Qed.

Lemma parse_while_complete end_ it s r :
  loop_spec parse_step end_ it s r ->
  exists fuel, forall fuel', fuel <= fuel' -> parse_while fuel' it end_ s = r.
Proof.
  induction 1 as [s | it s s' Hne Hs | it s next s' r Hne Hs Hn _ [fuel IH]
                 | it s r Hne Hs Hr].
  - exists 1. intros [|fuel'] Hle; [lia|]. simpl. rewrite Nat.eqb_refl. reflexivity.
  - exists 1. intros [|fuel'] Hle; [lia|]. simpl.
    apply Nat.eqb_neq in Hne. rewrite Hne. unfold bind.
    fold parse_step. rewrite Hs, Nat.eqb_refl. reflexivity.
  - exists (S fuel). intros [|fuel'] Hle; [lia|]. simpl.
    apply Nat.eqb_neq in Hne. rewrite Hne. unfold bind.
    fold parse_step. rewrite Hs. apply Nat.eqb_neq in Hn. rewrite Hn.
    apply IH. lia.
  - exists 1. intros [|fuel'] Hle; [lia|]. simpl.
    apply Nat.eqb_neq in Hne. rewrite Hne. unfold bind.
    fold parse_step. rewrite Hs.
    destruct r; try reflexivity. exfalso. eapply Hr; reflexivity.
Qed.
End loop_facts.

(** C5. For every grammar (a table and an init step over any parser
    object) and every range: [parse_loop] runs the init step and then the
    loop of the specification, [loop_spec], over [parse_step] -- whatever
    the loop of the specification yields, [parse_loop] yields with enough
    fuel, and whatever [parse_loop] yields before its fuel runs out, the
    loop of the specification yields; the init step of [parser_base] is
    the identity; and [parse_step] on a token that is not in the table
    hands back its cursor, having only printed the token. *)
Theorem C5_parse_loop_is_init_then_steps (T : Type) (toks : list string)
    (mapping_table : list (string * @parser_base.command_info T))
    (parse_init : @parser_base.range_it_fun T) :
  (forall fuel begin end_ s r,
      parser_base.parse_loop toks mapping_table parse_init fuel begin end_ s = r ->
      r <> Diverge ->
      match parse_init begin end_ s with
      | Ok it s0 =>
          loop_spec (parser_base.parse_step toks mapping_table) end_ it s0 r
      | Throw e => r = Throw e
      | Undefined => r = Undefined
      | Diverge => False
      end)
  /\ (forall begin end_ s it s0 r,
         parse_init begin end_ s = Ok it s0 ->
         loop_spec (parser_base.parse_step toks mapping_table) end_ it s0 r ->
         exists fuel, forall fuel', fuel <= fuel' ->
           parser_base.parse_loop toks mapping_table parse_init fuel' begin end_ s = r)
  /\ (forall begin end_ (s : st T),
         parser_base.parse_init begin end_ s = Ok begin s)
  /\ (forall it end_ s tok,
         nth_error toks it = Some tok ->
         find (to_upper tok) mapping_table = None ->
         parser_base.parse_step toks mapping_table it end_ s
         = Ok it (fst s, (snd s ++ [parsing_line tok])%list)).
Proof.
  repeat split.
  - intros fuel begin end_ s r H Hr.
    unfold parser_base.parse_loop, bind in H.
    destruct (parse_init begin end_ s) as [it s0| e | |]; try congruence.
    eapply parse_while_sound; eauto.
  - intros begin end_ s it s0 r Hi Hl.
    apply parse_while_complete in Hl. destruct Hl as [fuel Hl].
    exists fuel. intros fuel' Hle.
    unfold parser_base.parse_loop, bind. rewrite Hi. apply Hl, Hle.
  - intros it end_ s tok Htok Hfind.
    unfold parser_base.parse_step, bind, deref. rewrite Htok. simpl.
    rewrite Hfind. reflexivity.
Qed.

(** ** Cursor monotonicity *)

Lemma parse_step_point_advance T (toks : list string)
    (table : list (string * @parser_base.command_info T))
    begin end_ (s : st T) c s' tok info f :
  nth_error toks begin = Some tok ->
  find (to_upper tok) table = Some info ->
  parser_base.parse_function info = parser_base.point_fn f ->
  parser_base.parse_step toks table begin end_ s = Ok c s' ->
  c = begin + 2.
Proof.
  intros Htok Hfind Hf H.
  unfold parser_base.parse_step, bind, deref in H. rewrite Htok in H. simpl in H.
  rewrite Hfind, Hf in H.
  destruct (_ <? _)%Z; [discriminate|].
  destruct (f (S begin) _); try discriminate. inversion H. lia.
Qed.

(** C7. In each of the four grammars, and for any amount of fuel, the init
    step, every range handler of the table, [parse_step] and [parse_loop]
    hand back a cursor that is not before the cursor they were passed
    ([monotone]); the handlers of the field grammar and of the chart
    grammar that run the loop of a nested grammar are among them. After a
    point handler has returned, [parse_step] hands back the cursor two
    past the one it was passed. *)
Theorem C7_cursor_never_moves_backward {E : Externals} (fuel : nat)
    (toks : list string) :
  (monotone (@parser_base.parse_init bin_parser.t)
   /\ table_monotone (bin_parser.mapping_table toks)
   /\ monotone (bin_parser.parse_step toks)
   /\ monotone (bin_parser.parse_loop fuel toks))
  /\ (monotone (field_parser.parse_init toks)
      /\ table_monotone (field_parser.mapping_table fuel toks)
      /\ monotone (field_parser.parse_field_bin fuel toks)
      /\ monotone (field_parser.parse_step fuel toks)
      /\ monotone (field_parser.parse_loop fuel toks))
  /\ (monotone (mark_parser.parse_init toks)
      /\ table_monotone (mark_parser.mapping_table toks)
      /\ monotone (mark_parser.parse_step toks)
      /\ monotone (mark_parser.parse_loop fuel toks))
  /\ (monotone xv_sqlite_parser.parse_init
      /\ table_monotone (xv_sqlite_parser.mapping_table fuel toks)
      /\ monotone (xv_sqlite_parser.parse_step fuel toks)
      /\ monotone (xv_sqlite_parser.parse_loop fuel toks))
  /\ (forall T (table : list (string * @parser_base.command_info T))
             begin end_ (s : st T) c s' tok info f,
         nth_error toks begin = Some tok ->
         find (to_upper tok) table = Some info ->
         parser_base.parse_function info = parser_base.point_fn f ->
         parser_base.parse_step toks table begin end_ s = Ok c s' ->
         c = begin + 2).
Proof.
  repeat split.
  - apply init_monotone.
  - apply bin_table_monotone.
  - apply bin_step_monotone.
  - apply bin_loop_monotone.
  - apply field_init_monotone.
  - apply field_table_monotone.
  - apply field_bin_monotone.
  - apply field_step_monotone.
  - apply field_loop_monotone.
  - apply mark_init_monotone.
  - apply mark_table_monotone.
  - apply mark_step_monotone.
  - apply mark_loop_monotone.
  - apply chart_init_monotone.
  - apply chart_table_monotone.
  - apply chart_step_monotone.
  - apply chart_loop_monotone.
  - intros. eapply parse_step_point_advance; eauto.
Qed.

(** ** The top-level operation *)



(** ** BIN without a binning specification *)




Lemma parse_step_match T (toks : list string)
    (table : list (string * @parser_base.command_info T)) it end_ (s : st T)
    tok info :
  nth_error toks it = Some tok ->
  find (to_upper tok) table = Some info ->
  (parser_base.number_required_arguments info <= distance it end_)%Z ->
  parser_base.parse_step toks table it end_ s
  = match parser_base.parse_function info with
    | parser_base.point_fn f =>
        (f (S it) ;; ret (S (S it))) (fst s, (snd s ++ [parsing_line tok])%list)
    | parser_base.range_fn f =>
        f (S it) end_ (fst s, (snd s ++ [parsing_line tok])%list)
    end.
Proof.
  intros Htok Hfind Hd.
  unfold parser_base.parse_step, bind, deref. rewrite Htok. simpl.
  rewrite Hfind. apply Z.ltb_ge in Hd. rewrite Hd.
  destruct (parser_base.parse_function info); reflexivity.
Qed.


Section bin_without_attribute.
Context {E : Externals}.
Variable toks : list string.
Variable t : string.
Hypothesis not_a_bin_value :
  ~ In (to_upper t)
       ["TRUE"; "FALSE"; "ANCHOR"; "BASE"; "BINNED"; "MAXBINS"; "MINSTEP";
        "NICE"; "STEP"].





End bin_without_attribute.


(** ** Tokens kept as values *)

(** C3 (as stated): the colour that the handler of [COLOR] stores for the
    token [RED] is [red], not the token. *)
Lemma C3_counterexample :
  exists s',
    mark_parser.parse_color (E := no_numbers) ["RED"] 0
      (xv.set_mark xv.mark_bar xv.Chart0, []) = Ok tt s'
    /\ option_map xv.color (xv.mark_ (fst s')) = Some (Some "red")
    /\ "red" <> "RED".
Proof.
  eexists. split; [reflexivity|]. split; [reflexivity | discriminate].
Qed.

(** C3 (amended). For every token: the init step of the field grammar
    stores the token itself as the field identifier, and the handler of
    [COLOR] stores the token folded to lower case as the colour of the
    mark that the chart holds, whatever its class. *)
Theorem C3_field_verbatim_color_lower_case {E : Externals}
    (toks : list string) (it end_ : input_it) (tok : string) :
  nth_error toks it = Some tok ->
  (forall s : st xv.Channel,
      exists s',
        field_parser.parse_init toks it end_ s = Ok (it + 1) s'
        /\ xv.field (fst s') = Some tok)
  /\ (forall (s : st xv.Chart) (m : xv.mark),
         xv.mark_ (fst s) = Some m ->
         exists s',
           mark_parser.parse_color toks it s = Ok tt s'
           /\ xv.mark_ (fst s')
              = Some {| xv.kind := xv.kind m; xv.color := Some (to_lower tok) |}).
Proof.
  intros Htok. split.
  - intros s. eexists. split.
    + unfold field_parser.parse_init, bind, deref. rewrite Htok. reflexivity.
    + reflexivity.
  - intros s m Hm. eexists. split.
    + unfold mark_parser.parse_color, bind, gets. rewrite Hm.
      unfold mark_parser.visit_any, parser_base.visit_any.
      destruct m as [k c]. destruct k; simpl;
        unfold mark_parser.set_color_visitor, bind, deref; rewrite Htok;
        reflexivity.
    + reflexivity.
Qed.

(** ** Keywords are matched whatever their case *)

Lemma simple_switch_case T (t t' : string)
    (handlers : list (string * @parser_base.free_fun T)) (s : st T) :
  to_upper t = to_upper t' ->
  parser_base.simple_switch t handlers s = parser_base.simple_switch t' handlers s.
Proof. intros H. unfold parser_base.simple_switch. rewrite H. reflexivity. Qed.

(** C6. The init step of the mark grammar selects the same mark, a bar,
    for the tokens [bar], [Bar] and [BAR], and throws the error about the
    mark for [barr]; the chart grammar enters the mark grammar on [mark],
    [Mark] and [MARK] alike; and the resolver treats any two tokens with
    the same upper-case form alike. *)
Theorem C6_keywords_match_in_any_case {E : Externals} (fuel : nat)
    (s : st xv.Chart) :
  (forall tok, In tok ["bar"; "Bar"; "BAR"] ->
     mark_parser.parse_init [tok] 0 1 s
     = Ok 1 (xv.set_mark xv.mark_bar (fst s), snd s))
  /\ mark_parser.parse_init ["barr"] 0 1 s
     = Throw (runtime_error "Missing or invalid MARK type")
  /\ (forall kw, In kw ["mark"; "Mark"; "MARK"] ->
        xv_sqlite_parser.parse_step (S fuel) [kw; "bar"] 0 2 s
        = Ok 2 (xv.set_mark xv.mark_bar (fst s),
                (snd s ++ [parsing_line kw])%list))
  /\ (forall T (t t' : string)
             (handlers : list (string * @parser_base.free_fun T)) (s : st T),
        to_upper t = to_upper t' ->
        parser_base.simple_switch t handlers s
        = parser_base.simple_switch t' handlers s).
Proof.
  split; [|split; [|split]].
  - intros tok H. in_table H; reflexivity.
  - reflexivity.
  - intros kw H. in_table H; reflexivity.
  - intros. apply simple_switch_case. assumption.
Qed.

(** ** Dispatch on the type held by an any *)


(** ** The enumerations *)


Ltac nodup_strings :=
  repeat (constructor; [simpl; intuition discriminate|]); constructor.

Section enumerations.
Context {E : Externals}.






End enumerations.


(** ** BINNED with a value that is not a toggle *)

Lemma switch_unmatched T (tok : string)
    (handlers : list (string * @parser_base.free_fun T)) (s : st T) :
  ~ In (to_upper tok) (map fst handlers) ->
  parser_base.simple_switch tok handlers s = Ok false s.
Proof.
  intros H. apply find_None in H.
  unfold parser_base.simple_switch. rewrite H. reflexivity.
Qed.

(** C10. In the binning grammar, at [BINNED] (in any case) followed by a
    token [v] that is neither [TRUE] nor [FALSE] in any case,
    [parse_step] returns the cursor past both tokens and leaves the
    binning object and the counter of applied attributes as they were,
    having only printed the keyword. With a token that matches none of the
    keywords of their enumeration, the handlers of [TYPE], [AGGREGATE],
    [TIME_UNIT] and [GRID] throw instead. *)
Theorem C10_binned_ignores_unknown_value {E : Externals}
    (toks : list string) (it end_ : input_it) (kw v : string) :
  nth_error toks it = Some kw ->
  to_upper kw = "BINNED" ->
  nth_error toks (S it) = Some v ->
  to_upper v <> "TRUE" ->
  to_upper v <> "FALSE" ->
  it < end_ ->
  (forall s : st bin_parser.t,
      bin_parser.parse_step toks it end_ s
      = Ok (S (S it)) (fst s, (snd s ++ [parsing_line kw])%list))
  /\ (forall s : st xv.Channel,
         ~ In (to_upper v) (map fst field_parser.type_handlers) ->
         field_parser.parse_field_type toks (S it) s
         = Throw (runtime_error "Missing or invalid TYPE type"))
  /\ (forall s : st xv.Channel,
         ~ In (to_upper v) (map fst field_parser.aggregate_handlers) ->
         field_parser.parse_field_aggregate toks (S it) end_ s
         = Throw (runtime_error "Missing or invalid AGGREGATE type"))
  /\ (forall s : st xv.Channel,
         ~ In (to_upper v) (map fst field_parser.time_unit_handlers) ->
         field_parser.parse_field_time_unit toks (S it) s
         = Throw (runtime_error "Missing or invalid TIME_UNIT type"))
  /\ (forall s : st xv.Chart,
         xv_sqlite_parser.parse_grid toks (S it) s
         = Throw (runtime_error "Missing or invalid GRID type")).
Proof.
  intros Hkw Hbinned Hv Htrue Hfalse Hlt.
  assert (Htoggle : forall T (h1 h2 : @parser_base.free_fun T),
             ~ In (to_upper v) (map fst [("TRUE", h1); ("FALSE", h2)]))
    by (simpl; intuition congruence).
  split; [|split; [|split; [|split]]].
  - intros s. unfold bin_parser.parse_step.
    erewrite parse_step_match;
      [ | exact Hkw | rewrite Hbinned; reflexivity | unfold distance; simpl; lia ].
    simpl. unfold bin_parser.parse_bin_binned, bind, deref. rewrite Hv.
    rewrite switch_unmatched by apply Htoggle. reflexivity.
  - intros s H. unfold field_parser.parse_field_type, bind, deref. rewrite Hv.
    rewrite switch_unmatched by assumption. reflexivity.
  - intros s H. unfold field_parser.parse_field_aggregate, bind, deref. rewrite Hv.
    rewrite switch_unmatched by assumption. reflexivity.
  - intros s H. unfold field_parser.parse_field_time_unit, bind, deref. rewrite Hv.
    rewrite switch_unmatched by assumption. reflexivity.
  - intros s. unfold xv_sqlite_parser.parse_grid, bind, deref. rewrite Hv.
    rewrite switch_unmatched by apply Htoggle. reflexivity.
Qed.

(** ** The statements at concrete inputs *)


Lemma C3_field_verbatim_color_lower_case_witness :
  nth_error ["Price"] 0 = Some "Price"
  /\ (exists s',
         field_parser.parse_init (E := no_numbers) ["Price"] 0 1 (xv.Channel0, [])
         = Ok 1 s'
         /\ xv.field (fst s') = Some "Price")
  /\ (exists s',
         mark_parser.parse_color (E := no_numbers) ["Price"] 0
           (xv.set_mark xv.mark_tick xv.Chart0, []) = Ok tt s'
         /\ xv.mark_ (fst s')
            = Some {| xv.kind := xv.tick; xv.color := Some "price" |}).
Proof.
  pose proof (C3_field_verbatim_color_lower_case (E := no_numbers)
                ["Price"] 0 1 "Price" eq_refl) as [Hfield Hcolor].
  split; [reflexivity|]. split.
  - exact (Hfield (xv.Channel0, [])).
  - exact (Hcolor (xv.set_mark xv.mark_tick xv.Chart0, []) xv.mark_tick eq_refl).
Defined.


Lemma C5_parse_loop_is_init_then_steps_witness :
  loop_spec
    (parser_base.parse_step scenario_C
       (xv_sqlite_parser.mapping_table (E := no_numbers) 5 scenario_C))
    3 0
    (xv.set_config {| xv.axis := Some {| xv.grid := Some true |} |}
       (initial_chart (E := no_numbers) tt), [])
    (Ok 2
       (xv.set_width 400
          (xv.set_config {| xv.axis := Some {| xv.grid := Some true |} |}
             (initial_chart (E := no_numbers) tt)),
        [parsing_line "WIDTH"; parsing_line "FOO"])).
Proof.
  exact (proj1 (C5_parse_loop_is_init_then_steps _ scenario_C
                  (xv_sqlite_parser.mapping_table (E := no_numbers) 5 scenario_C)
                  xv_sqlite_parser.parse_init)
           5 0 3 (initial_chart (E := no_numbers) tt, []) _ eq_refl
           ltac:(discriminate)).
Defined.

Lemma C6_keywords_match_in_any_case_witness :
  to_upper "bar" = to_upper "BAR"
  /\ parser_base.simple_switch "bar" (mark_parser.mark_handlers (E := no_numbers))
       (xv.Chart0, [])
     = parser_base.simple_switch "BAR" mark_parser.mark_handlers (xv.Chart0, []).
Proof.
  split; [reflexivity|].
  pose proof (C6_keywords_match_in_any_case (E := no_numbers) 0 (xv.Chart0, []))
    as [_ [_ [_ H]]].
  apply H. reflexivity.
Defined.

Lemma C7_cursor_never_moves_backward_witness :
  exists s',
    xv_sqlite_parser.parse_loop (E := no_numbers) 16 scenario_A 0 14
      (initial_chart (E := no_numbers) tt, []) = Ok 14 s'
    /\ 0 <= 14.
Proof.
  destruct (C7_cursor_never_moves_backward (E := no_numbers) 16 scenario_A)
    as (_ & _ & _ & (_ & _ & _ & Hloop) & _).
  destruct (xv_sqlite_parser.parse_loop (E := no_numbers) 16 scenario_A 0 14
              (initial_chart (E := no_numbers) tt, []))
    as [c s'| | |] eqn:Hrun; try (vm_compute in Hrun; discriminate Hrun).
  assert (Hc : c = 14) by (vm_compute in Hrun; inversion Hrun; reflexivity).
  subst c. exists s'. split; [reflexivity|].
  exact (Hloop _ _ _ _ _ Hrun).
Defined.



Lemma C10_binned_ignores_unknown_value_witness :
  bin_parser.parse_step (E := no_numbers) ["binned"; "maybe"] 0 2
    ({| bin_parser.bin := xv.Bin0; bin_parser.num_parsed_attrs := 0 |}, [])
  = Ok 2 ({| bin_parser.bin := xv.Bin0; bin_parser.num_parsed_attrs := 0 |},
          [parsing_line "binned"])
  /\ xv_sqlite_parser.parse_grid (E := no_numbers) ["binned"; "maybe"] 1
       (xv.Chart0, [])
     = Throw (runtime_error "Missing or invalid GRID type").
Proof.
  assert (H1 : to_upper "maybe" <> "TRUE") by discriminate.
  assert (H2 : to_upper "maybe" <> "FALSE") by discriminate.
  assert (H3 : 0 < 2) by lia.
  pose proof (C10_binned_ignores_unknown_value (E := no_numbers)
                ["binned"; "maybe"] 0 2 "binned" "maybe"
                eq_refl eq_refl eq_refl H1 H2 H3) as [Hbin [_ [_ [_ Hgrid]]]].
  split.
  - exact (Hbin ({| bin_parser.bin := xv.Bin0; bin_parser.num_parsed_attrs := 0 |}, [])).
  - exact (Hgrid (xv.Chart0, [])).
Defined.

(** * Further properties of the engine and of the grammars *)

(** ** Termination *)

(** X1. The loop of any grammar whose range handlers never move the cursor
    backward, and whose init step and handlers terminate, terminates: it
    iterates at most once per token and once more, so with more fuel than
    tokens it does not run out of fuel and its outcome does not depend on
    the amount. *)
Theorem X1_parse_loop_terminates (T : Type) (toks : list string)
    (table : list (string * @parser_base.command_info T))
    (parse_init : @parser_base.range_it_fun T)
    (fuel1 fuel2 : nat) (begin end_ : input_it) (s : st T) :
  table_monotone table ->
  table_total table ->
  (forall b e, total (parse_init b e)) ->
  List.length toks < fuel1 ->
  List.length toks < fuel2 ->
  parser_base.parse_loop toks table parse_init fuel1 begin end_ s <> Diverge
  /\ parser_base.parse_loop toks table parse_init fuel1 begin end_ s
     = parser_base.parse_loop toks table parse_init fuel2 begin end_ s.
Proof.
  intros Hmono Htot Hinit H1 H2. split.
  - apply parse_loop_total; auto.
  - apply parse_loop_fuel; auto.
Qed.

Lemma X1_parse_loop_terminates_witness :
  let toks := ["NICE"; "true"; "STEP"] in
  let s := ({| bin_parser.bin := @xv.Bin0 no_numbers;
               bin_parser.num_parsed_attrs := 0 |}, []) in
  parser_base.parse_loop toks (bin_parser.mapping_table toks)
    parser_base.parse_init 4 0 3 s <> Diverge
  /\ parser_base.parse_loop toks (bin_parser.mapping_table toks)
       parser_base.parse_init 4 0 3 s
     = parser_base.parse_loop toks (bin_parser.mapping_table toks)
         parser_base.parse_init 7 0 3 s.
Proof.
  intros toks s.
  apply (X1_parse_loop_terminates _ toks (bin_parser.mapping_table toks)
           parser_base.parse_init 4 7 0 3 s).
  - apply bin_table_monotone.
  - apply bin_table_total.
  - apply init_total.
  - simpl; lia.
  - simpl; lia.
Defined.

(** X2. [process_xvega_input] terminates on every token list: run with any
    amount of fuel above the number of tokens, it returns, throws or reads
    out of range, with the same outcome whatever the amount. *)
Theorem X2_process_xvega_input_terminates {E : Externals} {json : Type}
    (mime_bundle_repr : xv.Chart -> json) (fuel : nat) (toks : list string)
    (df : df_type) (s : st unit) :
  List.length toks < fuel ->
  process_xvega_input_fuel mime_bundle_repr fuel toks df s <> Diverge
  /\ process_xvega_input_fuel mime_bundle_repr fuel toks df s
     = process_xvega_input mime_bundle_repr toks df s.
Proof.
  intros H. rewrite (process_fuel_suffices mime_bundle_repr fuel toks df s H).
  split; [apply process_total | reflexivity].
Qed.

Lemma X2_process_xvega_input_terminates_witness :
  List.length scenario_B < 5
  /\ process_xvega_input_fuel (E := no_numbers) (fun chart => chart) 5
       scenario_B tt (tt, [])
     = run_chart scenario_B.
Proof.
  assert (H : List.length scenario_B < 5) by (simpl; lia).
  split; [exact H|].
  exact (proj2 (X2_process_xvega_input_terminates (E := no_numbers)
                  (fun chart => chart) 5 scenario_B tt (tt, []) H)).
Defined.

(** ** Where a loop stops *)

Lemma parse_step_no_progress T (toks : list string)
    (table : list (string * @parser_base.command_info T))
    it end_ (s s' : st T) :
  table_monotone table ->
  parser_base.parse_step toks table it end_ s = Ok it s' ->
  exists tok,
    nth_error toks it = Some tok
    /\ find (to_upper tok) table = None
    /\ s' = (fst s, (snd s ++ [parsing_line tok])%list).
Proof.
  intros Hmono H. unfold parser_base.parse_step, bind, deref in H.
  destruct (nth_error toks it) as [tok|] eqn:Htok; [|discriminate].
  simpl in H. exists tok. split; [reflexivity|].
  destruct (find (to_upper tok) table) as [info|] eqn:Hfind.
  - exfalso.
    destruct (_ <? _)%Z; [discriminate|].
    destruct (parser_base.parse_function info) as [f|f] eqn:Hf.
    + destruct (f (S it) _); try discriminate. inversion H. lia.
    + apply find_In in Hfind. apply (Hmono _ _ _ Hfind Hf) in H. lia.
  - inversion H. auto.
Qed.

Lemma parse_while_stops T (toks : list string)
    (table : list (string * @parser_base.command_info T)) :
  table_monotone table ->
  forall fuel it end_ (s : st T) c s',
    parser_base.parse_while toks table fuel it end_ s = Ok c s' ->
    c = end_
    \/ exists tok, nth_error toks c = Some tok /\ find (to_upper tok) table = None.
Proof.
  intros Hmono. induction fuel as [|fuel IH]; intros it end_ s c s' H.
  - discriminate.
  - simpl in H. destruct (it =? end_) eqn:Ee.
    + apply Nat.eqb_eq in Ee. inversion H. left. congruence.
    + bind_inv H. destruct (a =? it) eqn:Ea.
      * apply Nat.eqb_eq in Ea. subst a. inversion H. subst. right.
        apply parse_step_no_progress in E; auto.
        destruct E as [tok [Htok [Hfind _]]]. eauto.
      * eapply IH; eauto.
Qed.

(** X3. When the loop of a grammar whose range handlers never move the
    cursor backward returns a cursor other than [end], that cursor points
    at a token of the vector that is not a keyword of the grammar. So the
    tokens that [process_xvega_input] rejects as an invalid command start
    with a token that is no keyword of the chart grammar. *)
Theorem X3_loop_stops_at_unknown_token {E : Externals} :
  (forall T (toks : list string)
          (table : list (string * @parser_base.command_info T))
          (parse_init : @parser_base.range_it_fun T)
          fuel begin end_ (s : st T) c s',
      table_monotone table ->
      parser_base.parse_loop toks table parse_init fuel begin end_ s = Ok c s' ->
      c <> end_ ->
      exists tok,
        nth_error toks c = Some tok /\ find (to_upper tok) table = None)
  /\ (forall fuel toks begin end_ (s : st xv.Chart) c s',
         xv_sqlite_parser.parse_loop fuel toks begin end_ s = Ok c s' ->
         c <> end_ ->
         exists tok,
           nth_error toks c = Some tok
           /\ ~ In (to_upper tok)
                   ["WIDTH"; "HEIGHT"; "X_FIELD"; "Y_FIELD"; "MARK"; "GRID";
                    "TITLE"]).
Proof.
  assert (Hgen : forall T (toks : list string)
          (table : list (string * @parser_base.command_info T))
          (parse_init : @parser_base.range_it_fun T)
          fuel begin end_ (s : st T) c s',
      table_monotone table ->
      parser_base.parse_loop toks table parse_init fuel begin end_ s = Ok c s' ->
      c <> end_ ->
      exists tok,
        nth_error toks c = Some tok /\ find (to_upper tok) table = None).
  { intros T toks table parse_init fuel begin end_ s c s' Hmono H Hne.
    unfold parser_base.parse_loop in H. bind_inv H.
    apply parse_while_stops in H; auto. destruct H; [contradiction|assumption]. }
  split; [exact Hgen|].
  intros fuel toks begin end_ s c s' H Hne.
  destruct (Hgen _ _ _ _ _ _ _ _ _ _ (chart_table_monotone toks fuel) H Hne)
    as [tok [Htok Hfind]].
  exists tok. split; [assumption|].
  apply find_None in Hfind. exact Hfind.
Qed.

Lemma X3_loop_stops_at_unknown_token_witness :
  exists s',
    xv_sqlite_parser.parse_loop (E := no_numbers) 5 scenario_C 0 3
      (initial_chart (E := no_numbers) tt, []) = Ok 2 s'
    /\ exists tok,
         nth_error scenario_C 2 = Some tok
         /\ ~ In (to_upper tok)
                 ["WIDTH"; "HEIGHT"; "X_FIELD"; "Y_FIELD"; "MARK"; "GRID";
                  "TITLE"].
Proof.
  destruct (xv_sqlite_parser.parse_loop (E := no_numbers) 5 scenario_C 0 3
              (initial_chart (E := no_numbers) tt, []))
    as [c s'| | |] eqn:Hrun; try (vm_compute in Hrun; discriminate Hrun).
  assert (Hc : c = 2) by (vm_compute in Hrun; inversion Hrun; reflexivity).
  subst c. exists s'. split; [reflexivity|].
  apply (proj2 (X3_loop_stops_at_unknown_token (E := no_numbers))
           5 scenario_C 0 3 _ 2 s' Hrun).
  discriminate.
Defined.

(** ** Invariants of a loop *)

Lemma trace_of_refl toks out : trace_of toks out out.
Proof. exists []. split; [symmetry; apply app_nil_r | constructor]. Qed.

Lemma trace_of_print toks out0 out tok :
  In tok toks -> trace_of toks out0 out ->
  trace_of toks out0 (out ++ [parsing_line tok])%list.
Proof.
  intros Hin [lines [Heq Hall]]. exists (lines ++ [parsing_line tok])%list. split.
  - rewrite Heq. symmetry. apply app_assoc.
  - apply Forall_app. split; [assumption|]. constructor; [eauto | constructor].
Qed.

Section loop_invariant.
Context {T : Type}.
Variable toks : list string.
Variable table : list (string * @parser_base.command_info T).
Variable I : st T -> Prop.
Variable X : exception -> Prop.
Variable end_ : input_it.
Hypothesis arity :
  (List.length toks <= end_
   /\ forall k info, In (k, info) table ->
        (parser_base.number_required_arguments info <= 1)%Z)
  \/ X (runtime_error "Arguments missing.").
Hypothesis print_keeps :
  forall tok s, In tok toks -> I s ->
    I (fst s, (snd s ++ [parsing_line tok])%list).
Hypothesis handlers_keep :
  forall k info, In (k, info) table ->
    match parser_base.parse_function info with
    | parser_base.point_fn f => forall it, triple I (f it) (fun _ => I) X
    | parser_base.range_fn f => forall it, triple I (f it end_) (fun _ => I) X
    end.

Lemma parse_step_triple it :
  triple I (parser_base.parse_step toks table it end_) (fun _ => I) X.
Proof.
  intros s Hs. unfold parser_base.parse_step, bind, deref.
  destruct (nth_error toks it) as [tok|] eqn:Htok; [|exact Logic.I].
  assert (Hlt : it < List.length toks) by (apply nth_error_Some; congruence).
  apply nth_error_In in Htok. simpl.
  pose proof (print_keeps tok s Htok Hs) as Hs1.
  destruct (find (to_upper tok) table) as [info|] eqn:Hfind; [|exact Hs1].
  apply find_In in Hfind.
  pose proof (handlers_keep _ _ Hfind) as Hh.
  destruct (distance it end_ <? parser_base.number_required_arguments info)%Z
    eqn:Hd.
  - destruct arity as [[Hend Hone]|Hx]; [|exact Hx].
    exfalso. apply Z.ltb_lt in Hd. specialize (Hone _ _ Hfind).
    unfold distance in Hd. lia.
  - destruct (parser_base.parse_function info) as [f|f].
    + specialize (Hh (S it) _ Hs1). destruct (f (S it) _); auto.
    + specialize (Hh (S it) _ Hs1). destruct (f (S it) end_ _); auto.
Qed.

Lemma parse_while_triple fuel :
  forall it,
    triple I (parser_base.parse_while toks table fuel it end_) (fun _ => I) X.
Proof.
  induction fuel as [|fuel IH]; intros it s Hs; simpl; [exact Logic.I|].
  destruct (it =? end_); [exact Hs|].
  unfold bind. pose proof (parse_step_triple it s Hs) as Hstep.
  destruct (parser_base.parse_step toks table it end_ s) as [next s'| | |]; auto.
  destruct (next =? it); [exact Hstep|]. apply IH, Hstep.
Qed.
End loop_invariant.

(** ** The invariants of the four grammars *)

Lemma print_keeps_trace T toks out0 (R : T -> Prop) :
  forall tok (s : st T), In tok toks ->
    trace_of toks out0 (snd s) /\ R (fst s) ->
    trace_of toks out0 (snd (fst s, (snd s ++ [parsing_line tok])%list))
    /\ R (fst (fst s, (snd s ++ [parsing_line tok])%list)).
Proof. intros tok s Hin [Ht HR]. simpl. split; [apply trace_of_print|]; auto. Qed.

Section grammar_invariants.
Context {E : Externals}.
Variable toks : list string.
Variable out0 : list string.
Variable X : exception -> Prop.
Variable end_ : input_it.
Hypothesis handler_errors : forall e, handler_error toks e -> X e.
Hypothesis arity :
  List.length toks <= end_ \/ X (runtime_error "Arguments missing.").

Lemma stod_error_allowed tok e : In tok toks -> stod tok = inl e -> X e.
Proof. intros Hin H. apply handler_errors. right. right. eauto. Qed.

Lemma stoi_error_allowed tok e : In tok toks -> stoi tok = inl e -> X e.
Proof. intros Hin H. apply handler_errors. right. left. eauto. Qed.

Lemma enumeration_error_allowed msg :
  In msg ["Missing or invalid BIN type"; "Missing or invalid TYPE type";
          "Missing or invalid AGGREGATE type";
          "Missing or invalid TIME_UNIT type"; "Missing or invalid MARK type";
          "Missing or invalid GRID type"] ->
  X (runtime_error msg).
Proof. intros H. apply handler_errors. left. apply in_map, H. Qed.

Ltac table_arity :=
  destruct arity as [Hend|Hx];
  [left; split; [exact Hend|];
   let Hin := fresh "Hin" in intros ? ? Hin; in_table Hin; simpl; lia
  | right; exact Hx].

(** *** bin_parser *)

Ltac bin_handler :=
  intros it s [Htrace [Hpos Hiff]];
  unfold bin_parser.parse_bin_anchor, bin_parser.parse_bin_base,
    bin_parser.parse_bin_binned, bin_parser.parse_bin_maxbins,
    bin_parser.parse_bin_minstep, bin_parser.parse_bin_nice,
    bin_parser.parse_bin_step, parser_base.simple_switch, bind, deref,
    lift_conv, bin_parser.incr_num_parsed_attrs;
  destruct (nth_error toks it) as [tok|] eqn:Htok; [|exact Logic.I];
  apply nth_error_In in Htok; simpl;
  repeat match goal with
         | |- context [stod ?t] =>
             let Hs := fresh "Hstod" in
             destruct (stod t) eqn:Hs; simpl;
             [exact (stod_error_allowed _ _ Htok Hs)|]
         | |- context [if String.eqb ?a ?b then _ else _] =>
             destruct (String.eqb a b); simpl
         | |- context [if (?a =? ?b)%Z then _ else _] =>
             destruct (a =? b)%Z; simpl; [exact Logic.I|]
         end;
  try (split; [assumption|split; [assumption|assumption]]);
  (split; [assumption|]; split; simpl; [lia|]; split; intros H;
   [lia | discriminate H]).

Lemma bin_handlers_keep :
  forall k info, In (k, info) (bin_parser.mapping_table toks) ->
    match parser_base.parse_function info with
    | parser_base.point_fn f =>
        forall it, triple (bin_inv toks out0) (f it) (fun _ => bin_inv toks out0) X
    | parser_base.range_fn f =>
        forall it, triple (bin_inv toks out0) (f it end_)
                     (fun _ => bin_inv toks out0) X
    end.
Proof.
  intros k info Hin. in_table Hin; simpl; bin_handler.
Qed.

Lemma bin_loop_triple fuel begin :
  triple (bin_inv toks out0) (bin_parser.parse_loop fuel toks begin end_)
    (fun _ => bin_inv toks out0) X.
Proof.
  intros s Hs. unfold bin_parser.parse_loop, parser_base.parse_loop, bind. simpl.
  apply (parse_while_triple toks (bin_parser.mapping_table toks)
           (bin_inv toks out0) X end_); auto.
  - table_arity.
  - intros tok s0 Hin. apply print_keeps_trace, Hin.
  - apply bin_handlers_keep.
Qed.

(** *** field_parser *)

Variable fuel : nat.

Ltac enumeration_leaf :=
  first
    [ exact Logic.I
    | apply enumeration_error_allowed; simpl; tauto
    | split; [assumption|];
      unfold field_well_formed; simpl; repeat split;
      first [ assumption | discriminate | (vm_compute; tauto)
            | (right; vm_compute; tauto) ] ].

Ltac enumeration_handler :=
  unfold parser_base.simple_switch, bind, deref;
  match goal with
  | |- context [nth_error toks ?it] =>
      destruct (nth_error toks it) as [tok|] eqn:Htok; [|exact Logic.I]
  end;
  simpl;
  repeat match goal with
         | |- context [if String.eqb ?a ?b then _ else _] =>
             destruct (String.eqb a b); simpl; [enumeration_leaf|]
         end;
  enumeration_leaf.

Lemma field_type_keeps name it :
  triple (field_inv toks out0 name) (field_parser.parse_field_type toks it)
    (fun _ => field_inv toks out0 name) X.
Proof.
  intros s [Htrace [Hf [Ht [Ha [Hu Hb]]]]].
  unfold field_parser.parse_field_type. enumeration_handler.
Qed.

Lemma field_aggregate_keeps name it :
  triple (field_inv toks out0 name)
    (field_parser.parse_field_aggregate toks it end_)
    (fun _ => field_inv toks out0 name) X.
Proof.
  intros s [Htrace [Hf [Ht [Ha [Hu Hb]]]]].
  unfold field_parser.parse_field_aggregate. enumeration_handler.
Qed.

Lemma field_time_unit_keeps name it :
  triple (field_inv toks out0 name) (field_parser.parse_field_time_unit toks it)
    (fun _ => field_inv toks out0 name) X.
Proof.
  intros s [Htrace [Hf [Ht [Ha [Hu Hb]]]]].
  unfold field_parser.parse_field_time_unit. enumeration_handler.
Qed.

Lemma field_bin_keeps name it :
  triple (field_inv toks out0 name)
    (field_parser.parse_field_bin fuel toks it end_)
    (fun _ => field_inv toks out0 name) X.
Proof.
  intros s [Htrace [Hf [Ht [Ha [Hu Hb]]]]].
  unfold field_parser.parse_field_bin, parser_base.simple_switch, bind, deref.
  destruct (nth_error toks it) as [tok|] eqn:Htok; [|exact Logic.I]. simpl.
  destruct (String.eqb (to_upper tok) "TRUE"); simpl; [enumeration_leaf|].
  destruct (String.eqb (to_upper tok) "FALSE"); simpl; [enumeration_leaf|].
  unfold run_nested. simpl.
  pose proof (bin_loop_triple fuel it
                ({| bin_parser.bin := xv.Bin0; bin_parser.num_parsed_attrs := 0 |},
                 snd s)) as Hloop.
  destruct (bin_parser.parse_loop fuel toks it end_ _) as [c [p out]| e | |];
    [ | apply Hloop | exact Logic.I | exact Logic.I ].
  - simpl.
    destruct Hloop as [Htrace' [Hpos Hiff]].
    { split; [exact Htrace|]. split; simpl; [lia|]. split; reflexivity. }
    simpl in *.
    destruct (bin_parser.num_parsed_attrs p =? 0)%Z eqn:Hn; simpl.
    + apply enumeration_error_allowed; simpl; tauto.
    + apply Z.eqb_neq in Hn. split; [exact Htrace'|].
      unfold field_well_formed; simpl. repeat split; try assumption.
      intros H. inversion H as [Hbin]. apply Hiff in Hbin. contradiction.
  - split; [exact Htrace|]. split; simpl; [lia|]. split; reflexivity.
Qed.

Lemma field_handlers_keep name :
  forall k info, In (k, info) (field_parser.mapping_table fuel toks) ->
    match parser_base.parse_function info with
    | parser_base.point_fn f =>
        forall it, triple (field_inv toks out0 name) (f it)
                     (fun _ => field_inv toks out0 name) X
    | parser_base.range_fn f =>
        forall it, triple (field_inv toks out0 name) (f it end_)
                     (fun _ => field_inv toks out0 name) X
    end.
Proof.
  intros k info Hin. in_table Hin; simpl.
  - apply field_type_keeps.
  - apply field_bin_keeps.
  - apply field_aggregate_keeps.
  - apply field_time_unit_keeps.
Qed.

Lemma field_loop_triple begin :
  triple (fun s => trace_of toks out0 (snd s) /\ field_fresh (fst s))
    (field_parser.parse_loop fuel toks begin end_)
    (fun _ s' =>
       exists name, nth_error toks begin = Some name /\ field_inv toks out0 name s')
    X.
Proof.
  intros s [Htrace [Ha [Hu Hb]]].
  unfold field_parser.parse_loop, parser_base.parse_loop, bind.
  unfold field_parser.parse_init at 1. unfold bind, deref.
  destruct (nth_error toks begin) as [name|] eqn:Hname; [|exact Logic.I]. simpl.
  pose proof (parse_while_triple toks (field_parser.mapping_table fuel toks)
                (field_inv toks out0 name) X end_) as Hwhile.
  match goal with
  | |- match parser_base.parse_while _ _ ?f ?it _ ?s1 with _ => _ end =>
      specialize (Hwhile ltac:(table_arity)
                    ltac:(intros tok s0 Hin; apply print_keeps_trace, Hin)
                    (field_handlers_keep name) f it s1)
  end.
  match type of Hwhile with
  | ?P -> _ =>
      assert (HP : P);
      [ split; [exact Htrace|]; unfold field_well_formed; simpl;
        repeat split;
        first [ rewrite Ha; left; reflexivity | rewrite Hu; left; reflexivity
              | rewrite Hb; discriminate | (vm_compute; tauto) | reflexivity ]
      | specialize (Hwhile HP) ]
  end.
  destruct (parser_base.parse_while _ _ _ _ _ _); eauto.
Qed.

(** *** mark_parser *)

Lemma mark_color_keeps c0 k it :
  triple (mark_inv toks out0 c0 k) (mark_parser.parse_color toks it)
    (fun _ => mark_inv toks out0 c0 k) X.
Proof.
  intros s [Htrace [Hsame [col Hm]]].
  unfold mark_parser.parse_color, bind, gets. rewrite Hm.
  unfold mark_parser.visit_any, parser_base.visit_any.
  destruct k; simpl; unfold mark_parser.set_color_visitor, bind, deref;
    (destruct (nth_error toks it); [|exact Logic.I]); simpl;
    (split; [exact Htrace|]; split; [exact Hsame | eexists; reflexivity]).
Qed.

Lemma mark_handlers_keep c0 k :
  forall key info, In (key, info) (mark_parser.mapping_table toks) ->
    match parser_base.parse_function info with
    | parser_base.point_fn f =>
        forall it, triple (mark_inv toks out0 c0 k) (f it)
                     (fun _ => mark_inv toks out0 c0 k) X
    | parser_base.range_fn f =>
        forall it, triple (mark_inv toks out0 c0 k) (f it end_)
                     (fun _ => mark_inv toks out0 c0 k) X
    end.
Proof. intros key info Hin. in_table Hin; simpl. apply mark_color_keeps. Qed.

Lemma mark_handler_effect key h (s : st xv.Chart) :
  In (key, h) mark_parser.mark_handlers ->
  exists k,
    mark_stored h = Some {| xv.kind := k; xv.color := None |}
    /\ h s = Ok tt (xv.set_mark {| xv.kind := k; xv.color := None |} (fst s), snd s).
Proof. intros Hin. in_table Hin; eexists; split; reflexivity. Qed.

Lemma mark_loop_triple begin c0 :
  triple (fun s => trace_of toks out0 (snd s) /\ fst s = c0)
    (mark_parser.parse_loop fuel toks begin end_)
    (fun _ s' =>
       exists tok h k,
         nth_error toks begin = Some tok
         /\ find (to_upper tok) mark_parser.mark_handlers = Some h
         /\ mark_stored h = Some {| xv.kind := k; xv.color := None |}
         /\ mark_inv toks out0 c0 k s')
    X.
Proof.
  intros s [Htrace Hc0].
  unfold mark_parser.parse_loop, parser_base.parse_loop, bind.
  unfold mark_parser.parse_init at 1.
  unfold parser_base.simple_switch, bind, deref.
  destruct (nth_error toks begin) as [tok|] eqn:Htok; [|exact Logic.I].
  destruct (find (to_upper tok) mark_parser.mark_handlers) as [h|] eqn:Hfind;
    [|apply enumeration_error_allowed; simpl; tauto].
  destruct (mark_handler_effect _ h s (find_In _ _ _ _ Hfind)) as [k [Hstored Hrun]].
  rewrite Hrun. simpl.
  pose proof (parse_while_triple toks (mark_parser.mapping_table toks)
                (mark_inv toks out0 c0 k) X end_) as Hwhile.
  match goal with
  | |- match parser_base.parse_while _ _ ?f ?it _ ?s1 with _ => _ end =>
      specialize (Hwhile ltac:(table_arity)
                    ltac:(intros tok' s0 Hin [Ht HR]; split;
                          [apply trace_of_print; assumption | exact HR])
                    (mark_handlers_keep c0 k) f it s1)
  end.
  match type of Hwhile with
  | ?P -> _ =>
      assert (HP : P);
      [ split; [exact Htrace|]; split;
        [subst c0; repeat split | eexists; reflexivity]
      | specialize (Hwhile HP) ]
  end.
  destruct (parser_base.parse_while _ _ _ _ _ _); auto.
  exists tok, h, k. auto.
Qed.

(** *** xv_sqlite_parser *)

Variable df : df_type.

Ltac chart_leaf :=
  first
    [ exact Logic.I
    | apply enumeration_error_allowed; simpl; tauto
    | split; [assumption|]; simpl; repeat split;
      first [ assumption | discriminate | (eexists; reflexivity) ] ].

Lemma chart_width_keeps it :
  triple (chart_inv toks out0 df) (xv_sqlite_parser.parse_width toks it)
    (fun _ => chart_inv toks out0 df) X.
Proof.
  intros s [Htrace [Hdata [Henc [b Hcfg]]]].
  unfold xv_sqlite_parser.parse_width, bind, deref, lift_conv.
  destruct (nth_error toks it) as [tok|] eqn:Htok; [|exact Logic.I].
  apply nth_error_In in Htok. simpl.
  destruct (stoi tok) as [e|v] eqn:Hstoi; simpl.
  - exact (stoi_error_allowed _ _ Htok Hstoi).
  - split; [assumption|]. simpl. repeat split; eauto.
Qed.

Lemma chart_height_keeps it :
  triple (chart_inv toks out0 df) (xv_sqlite_parser.parse_height toks it)
    (fun _ => chart_inv toks out0 df) X.
Proof.
  intros s [Htrace [Hdata [Henc [b Hcfg]]]].
  unfold xv_sqlite_parser.parse_height, bind, deref, lift_conv.
  destruct (nth_error toks it) as [tok|] eqn:Htok; [|exact Logic.I].
  apply nth_error_In in Htok. simpl.
  destruct (stoi tok) as [e|v] eqn:Hstoi; simpl.
  - exact (stoi_error_allowed _ _ Htok Hstoi).
  - split; [assumption|]. simpl. repeat split; eauto.
Qed.

Lemma chart_grid_keeps it :
  triple (chart_inv toks out0 df) (xv_sqlite_parser.parse_grid toks it)
    (fun _ => chart_inv toks out0 df) X.
Proof.
  intros s [Htrace [Hdata [Henc [b Hcfg]]]].
  unfold xv_sqlite_parser.parse_grid, parser_base.simple_switch, bind, deref.
  destruct (nth_error toks it) as [tok|] eqn:Htok; [|exact Logic.I]. simpl.
  destruct (String.eqb (to_upper tok) "TRUE"); simpl; [chart_leaf|].
  destruct (String.eqb (to_upper tok) "FALSE"); simpl; chart_leaf.
Qed.

Lemma chart_title_keeps it :
  triple (chart_inv toks out0 df) (xv_sqlite_parser.parse_title toks it)
    (fun _ => chart_inv toks out0 df) X.
Proof.
  intros s Hs. unfold xv_sqlite_parser.parse_title, bind, deref.
  destruct (nth_error toks it); [exact Hs | exact Logic.I].
Qed.

Lemma chart_x_field_keeps it :
  triple (chart_inv toks out0 df) (xv_sqlite_parser.parse_x_field fuel toks it end_)
    (fun _ => chart_inv toks out0 df) X.
Proof.
  intros s [Htrace [Hdata [Henc [b Hcfg]]]].
  unfold xv_sqlite_parser.parse_x_field, bind, zoom. simpl.
  pose proof (field_loop_triple it (xv.Channel0, snd s)) as Hloop.
  destruct (field_parser.parse_loop fuel toks it end_ _) as [c [t' out]| e | |];
    [ | apply Hloop | exact Logic.I | exact Logic.I ].
  - destruct Hloop as [name [_ [Htrace' _]]].
    { split; [exact Htrace|]. repeat split. }
    split; [exact Htrace'|]. simpl. repeat split; eauto. discriminate.
  - split; [exact Htrace|]. repeat split.
Qed.

Lemma chart_y_field_keeps it :
  triple (chart_inv toks out0 df) (xv_sqlite_parser.parse_y_field fuel toks it end_)
    (fun _ => chart_inv toks out0 df) X.
Proof.
  intros s [Htrace [Hdata [Henc [b Hcfg]]]].
  unfold xv_sqlite_parser.parse_y_field, bind, zoom. simpl.
  pose proof (field_loop_triple it (xv.Channel0, snd s)) as Hloop.
  destruct (field_parser.parse_loop fuel toks it end_ _) as [c [t' out]| e | |];
    [ | apply Hloop | exact Logic.I | exact Logic.I ].
  - destruct Hloop as [name [_ [Htrace' _]]].
    { split; [exact Htrace|]. repeat split. }
    split; [exact Htrace'|]. simpl. repeat split; eauto. discriminate.
  - split; [exact Htrace|]. repeat split.
Qed.

Lemma chart_mark_keeps it :
  triple (chart_inv toks out0 df) (xv_sqlite_parser.parse_mark fuel toks it end_)
    (fun _ => chart_inv toks out0 df) X.
Proof.
  intros s [Htrace [Hdata [Henc [b Hcfg]]]].
  unfold xv_sqlite_parser.parse_mark.
  pose proof (mark_loop_triple it (fst s) s (conj Htrace eq_refl)) as Hloop.
  destruct (mark_parser.parse_loop fuel toks it end_ s) as [c s'| e | |]; auto.
  destruct Hloop as [tok [h [k [_ [_ [_ [Htrace' [Hsame _]]]]]]]].
  destruct Hsame as [Hd [He [_ [_ Hc]]]].
  split; [exact Htrace'|]. rewrite Hd, He, Hc. eauto.
Qed.

Lemma chart_handlers_keep :
  forall k info, In (k, info) (xv_sqlite_parser.mapping_table fuel toks) ->
    match parser_base.parse_function info with
    | parser_base.point_fn f =>
        forall it, triple (chart_inv toks out0 df) (f it)
                     (fun _ => chart_inv toks out0 df) X
    | parser_base.range_fn f =>
        forall it, triple (chart_inv toks out0 df) (f it end_)
                     (fun _ => chart_inv toks out0 df) X
    end.
Proof.
  intros k info Hin. in_table Hin; simpl.
  - apply chart_width_keeps.
  - apply chart_height_keeps.
  - apply chart_x_field_keeps.
  - apply chart_y_field_keeps.
  - apply chart_mark_keeps.
  - apply chart_grid_keeps.
  - apply chart_title_keeps.
Qed.

Lemma chart_loop_triple begin :
  triple (fun s => trace_of toks out0 (snd s) /\ xv.data (fst s) = Some df
                   /\ xv.encoding (fst s) <> None)
    (xv_sqlite_parser.parse_loop fuel toks begin end_)
    (fun _ => chart_inv toks out0 df) X.
Proof.
  intros s [Htrace [Hdata Henc]].
  unfold xv_sqlite_parser.parse_loop, parser_base.parse_loop, bind. simpl.
  apply (parse_while_triple toks (xv_sqlite_parser.mapping_table fuel toks)
           (chart_inv toks out0 df) X end_).
  - table_arity.
  - intros tok s0 Hin [Ht HR]. split; [apply trace_of_print; assumption | exact HR].
  - apply chart_handlers_keep.
  - split; [exact Htrace|]. simpl. repeat split; eauto.
Qed.
End grammar_invariants.

(** ** What process_xvega_input throws and prints *)

Lemma stoi_error tok e :
  stoi tok = inl e -> e = invalid_argument "stoi" \/ e = out_of_range "stoi".
Proof.
  unfold stoi.
  destruct (match skip_spaces tok with
            | String c s' =>
                if Ascii.eqb c "-"%char then (true, s')
                else if Ascii.eqb c "+"%char then (false, s')
                else (false, skip_spaces tok)
            | EmptyString => (false, skip_spaces tok)
            end) as [neg rest].
  destruct (digits_value rest None) as [v|].
  - destruct (_ && _)%bool; intros H; inversion H. auto.
  - intros H. inversion H. auto.
Qed.

Lemma parsing_line_not_unregistered tok name :
  parsing_line tok <> parser_base.unregistered_line name.
Proof. unfold parsing_line, parser_base.unregistered_line. simpl. discriminate. Qed.

Lemma process_outcome {E : Externals} {json : Type}
    (mime_bundle_repr : xv.Chart -> json) (X : exception -> Prop)
    (toks : list string) (df : df_type) (s : st unit) :
  (forall e, handler_error toks e -> X e) ->
  X (runtime_error "This is not a valid command for SQLite XVega.") ->
  match process_xvega_input mime_bundle_repr toks df s with
  | Ok j s' =>
      fst s' = fst s
      /\ exists chart,
           j = mime_bundle_repr chart /\ chart_inv toks (snd s) df (chart, snd s')
  | Throw e => X e
  | Undefined => True
  | Diverge => True
  end.
Proof.
  intros HX Hcmd.
  unfold process_xvega_input, process_xvega_input_fuel, bind, run_nested.
  pose proof (chart_loop_triple toks (snd s) X (List.length toks) HX
                (or_introl (le_n _)) (enough_fuel toks) df 0
                (initial_chart df, snd s)) as Hloop.
  simpl in Hloop.
  destruct (xv_sqlite_parser.parse_loop _ _ _ _ _) as [c [chart out]| e | |];
    auto.
  - simpl. destruct (c =? List.length toks); simpl; [|exact Hcmd].
    split; [reflexivity|]. exists chart. split; [reflexivity|].
    apply Hloop. split; [apply trace_of_refl|]. split; [reflexivity|discriminate].
  - apply Hloop. split; [apply trace_of_refl|]. split; [reflexivity|discriminate].
Qed.

(** X4. Whatever the tokens, an exception that [process_xvega_input]
    throws is the error about an invalid command, one of the six errors
    about a missing or invalid value, or what [std::stoi] or [std::stod]
    threw for one of the tokens. When [std::stod] throws nothing but
    [invalid_argument] and [out_of_range], the operation therefore never
    throws the error of the arity check ("Arguments missing.") and never a
    failed [any_cast]. *)
Theorem X4_errors_of_process_xvega_input {E : Externals} {json : Type}
    (mime_bundle_repr : xv.Chart -> json) (toks : list string)
    (df : df_type) (s : st unit) (e : exception) :
  process_xvega_input mime_bundle_repr toks df s = Throw e ->
  (e = runtime_error "This is not a valid command for SQLite XVega."
   \/ handler_error toks e)
  /\ ((forall tok e', stod tok = inl e' ->
         exists what, e' = invalid_argument what \/ e' = out_of_range what) ->
      e <> runtime_error "Arguments missing." /\ e <> bad_any_cast).
Proof.
  intros H.
  pose proof (process_outcome mime_bundle_repr
                (fun e => e = runtime_error "This is not a valid command for SQLite XVega."
                          \/ handler_error toks e)
                toks df s (fun e He => or_intror He) (or_introl eq_refl)) as Hout.
  rewrite H in Hout. split; [exact Hout|].
  intros Hstod.
  destruct Hout as [He|[Hin|[[tok [_ Hs]]|[tok [_ Hs]]]]].
  - subst e. split; discriminate.
  - simpl in Hin.
    repeat (destruct Hin as [Hin|Hin]; [subst e; split; discriminate|]).
    contradiction.
  - apply stoi_error in Hs. destruct Hs; subst e; split; discriminate.
  - apply Hstod in Hs. destruct Hs as [what [Hs|Hs]]; subst e; split; discriminate.
Qed.

Lemma X4_errors_of_process_xvega_input_witness :
  run_chart ["WIDTH"; "wide"] = Throw (invalid_argument "stoi")
  /\ (invalid_argument "stoi"
      = runtime_error "This is not a valid command for SQLite XVega."
      \/ handler_error (E := no_numbers) ["WIDTH"; "wide"] (invalid_argument "stoi")).
Proof.
  assert (H : run_chart ["WIDTH"; "wide"] = Throw (invalid_argument "stoi"))
    by reflexivity.
  split; [exact H|].
  exact (proj1 (X4_errors_of_process_xvega_input (E := no_numbers)
                  (fun chart => chart) ["WIDTH"; "wide"] tt (tt, []) _ H)).
Defined.

(** X5. When [process_xvega_input] returns, what it has added to the
    output is a sequence of lines that [parse_step] prints for tokens of
    the input; the diagnostic of [visit_any] for a type without visitor is
    never among them: in the mark grammar the chart always holds a mark
    whose class has a visitor. *)
Theorem X5_output_of_process_xvega_input {E : Externals} {json : Type}
    (mime_bundle_repr : xv.Chart -> json) (toks : list string)
    (df : df_type) (s : st unit) (j : json) (s' : st unit) :
  process_xvega_input mime_bundle_repr toks df s = Ok j s' ->
  exists lines,
    snd s' = (snd s ++ lines)%list
    /\ Forall (fun line => exists tok, In tok toks /\ line = parsing_line tok) lines
    /\ forall name, ~ In (parser_base.unregistered_line name) lines.
Proof.
  intros H.
  pose proof (process_outcome mime_bundle_repr (fun _ => True) toks df s
                (fun _ _ => Logic.I) Logic.I) as Hout.
  rewrite H in Hout.
  destruct Hout as [_ [chart [_ [[lines [Heq Hall]] _]]]]. simpl in Heq.
  exists lines. split; [exact Heq|]. split; [exact Hall|].
  intros name Hin. rewrite Forall_forall in Hall.
  destruct (Hall _ Hin) as [tok [_ Hline]].
  symmetry in Hline. exact (parsing_line_not_unregistered _ _ Hline).
Qed.

Lemma X5_output_of_process_xvega_input_witness :
  exists chart s',
    run_chart scenario_B = Ok chart s'
    /\ exists lines,
         snd s' = ([] ++ lines)%list
         /\ Forall (fun line =>
                      exists tok, In tok scenario_B /\ line = parsing_line tok)
              lines
         /\ forall name, ~ In (parser_base.unregistered_line name) lines.
Proof.
  destruct (run_chart scenario_B) as [chart s'| | |] eqn:Hrun;
    try (vm_compute in Hrun; discriminate Hrun).
  exists chart, s'. split; [reflexivity|].
  exact (X5_output_of_process_xvega_input (E := no_numbers) (fun chart => chart)
           scenario_B tt (tt, []) chart s' Hrun).
Defined.

(** ** What the grammars leave in the chart *)



Example type_values {E : Externals} :
  map (fun kh => type_stored (snd kh)) field_parser.type_handlers
  = [Some "quantitative"; Some "nominal"; Some "ordinal"; Some "temporal"].
Proof. reflexivity. Qed.

(** X7. When the handler of [X_FIELD] or of [Y_FIELD] returns, the field
    encoding of its axis is well formed: its identifier is the token after
    the keyword, its type is one of the four that [TYPE] stores, its
    aggregate and time unit are absent or among those that their
    enumerations store, and it holds no binning object without attributes;
    the encoding of the other axis is as it was. *)
Theorem X7_field_clause_is_well_formed {E : Externals} (fuel : nat)
    (toks : list string) (begin end_ : input_it)
    (s : st xv.Chart) (c : input_it) (s' : st xv.Chart) :
  (xv_sqlite_parser.parse_x_field fuel toks begin end_ s = Ok c s' ->
   exists name,
     nth_error toks begin = Some name
     /\ field_well_formed name (xv.x_value (fst s'))
     /\ xv.y (xv.encoding_value (fst s')) = xv.y (xv.encoding_value (fst s)))
  /\ (xv_sqlite_parser.parse_y_field fuel toks begin end_ s = Ok c s' ->
      exists name,
        nth_error toks begin = Some name
        /\ field_well_formed name (xv.y_value (fst s'))
        /\ xv.x (xv.encoding_value (fst s')) = xv.x (xv.encoding_value (fst s))).
Proof.
  split; intros H.
  - unfold xv_sqlite_parser.parse_x_field in H. bind_inv H.
    inversion E0; subst; clear E0.
    apply zoom_Ok in H. destruct H as [t' [Hloop Hs']]. simpl in Hloop, Hs'.
    change (xv.x_value (xv.set_x xv.Channel0 (fst s)))
      with (@xv.Channel0 E) in Hloop.
    pose proof (field_loop_triple toks (snd s) (fun _ => True) end_
                  (fun _ _ => Logic.I) (or_intror Logic.I) fuel begin
                  (xv.Channel0, snd s)) as Htriple.
    rewrite Hloop in Htriple.
    destruct Htriple as [name [Hname [_ Hwf]]].
    { split; [apply trace_of_refl|]. repeat split. }
    exists name. rewrite Hs'. split; [exact Hname|]. split; [exact Hwf|reflexivity].
  - unfold xv_sqlite_parser.parse_y_field in H. bind_inv H.
    inversion E0; subst; clear E0.
    apply zoom_Ok in H. destruct H as [t' [Hloop Hs']]. simpl in Hloop, Hs'.
    change (xv.y_value (xv.set_y xv.Channel0 (fst s)))
      with (@xv.Channel0 E) in Hloop.
    pose proof (field_loop_triple toks (snd s) (fun _ => True) end_
                  (fun _ _ => Logic.I) (or_intror Logic.I) fuel begin
                  (xv.Channel0, snd s)) as Htriple.
    rewrite Hloop in Htriple.
    destruct Htriple as [name [Hname [_ Hwf]]].
    { split; [apply trace_of_refl|]. repeat split. }
    exists name. rewrite Hs'. split; [exact Hname|]. split; [exact Hwf|reflexivity].
Qed.

Lemma X7_field_clause_is_well_formed_witness :
  exists s' name,
    xv_sqlite_parser.parse_x_field (E := no_numbers) 6
      ["X_FIELD"; "price"; "AGGREGATE"; "mean"] 1 4
      (initial_chart (E := no_numbers) tt, []) = Ok 4 s'
    /\ nth_error ["X_FIELD"; "price"; "AGGREGATE"; "mean"] 1 = Some name
    /\ field_well_formed name (xv.x_value (fst s')).
Proof.
  destruct (xv_sqlite_parser.parse_x_field (E := no_numbers) 6
              ["X_FIELD"; "price"; "AGGREGATE"; "mean"] 1 4
              (initial_chart (E := no_numbers) tt, []))
    as [c s'| | |] eqn:Hrun; try (vm_compute in Hrun; discriminate Hrun).
  assert (Hc : c = 4) by (vm_compute in Hrun; inversion Hrun; reflexivity).
  subst c.
  destruct (proj1 (X7_field_clause_is_well_formed (E := no_numbers) 6
                     ["X_FIELD"; "price"; "AGGREGATE"; "mean"] 1 4
                     (initial_chart (E := no_numbers) tt, []) 4 s') Hrun)
    as [name [Hname [Hwf _]]].
  exists s', name. auto.
Defined.

(** X8. The counter of the binning grammar tells whether an attribute was
    applied: after its loop, started on a fresh binning object with the
    counter at zero, the counter is not negative and it is zero exactly
    when the object is still the fresh one. So what the handler of [BIN]
    stores is [true], [false] or a binning object with at least one
    attribute set. *)
Theorem X8_bin_counter_tells_applied_attributes {E : Externals} (fuel : nat)
    (toks : list string) (begin end_ : input_it) :
  (forall out c p out',
      bin_parser.parse_loop fuel toks begin end_
        ({| bin_parser.bin := xv.Bin0; bin_parser.num_parsed_attrs := 0 |}, out)
      = Ok c (p, out') ->
      (0 <= bin_parser.num_parsed_attrs p)%Z
      /\ (bin_parser.num_parsed_attrs p = 0%Z <-> bin_parser.bin p = xv.Bin0))
  /\ (forall (s : st xv.Channel) c s',
         field_parser.parse_field_bin fuel toks begin end_ s = Ok c s' ->
         xv.bin (fst s') = Some (inl true)
         \/ xv.bin (fst s') = Some (inl false)
         \/ exists b, xv.bin (fst s') = Some (inr b) /\ b <> xv.Bin0).
Proof.
  assert (Hloop : forall out c p out',
      bin_parser.parse_loop fuel toks begin end_
        ({| bin_parser.bin := xv.Bin0; bin_parser.num_parsed_attrs := 0 |}, out)
      = Ok c (p, out') ->
      (0 <= bin_parser.num_parsed_attrs p)%Z
      /\ (bin_parser.num_parsed_attrs p = 0%Z <-> bin_parser.bin p = xv.Bin0)).
  { intros out c p out' H.
    pose proof (bin_loop_triple toks out (fun _ => True) end_
                  (fun _ _ => Logic.I) (or_intror Logic.I) fuel begin
                  ({| bin_parser.bin := xv.Bin0;
                      bin_parser.num_parsed_attrs := 0 |}, out)) as Htriple.
    rewrite H in Htriple. apply Htriple.
    split; [apply trace_of_refl|]. split; simpl; [lia|]. split; reflexivity. }
  split; [exact Hloop|].
  intros s c s' H.
  unfold field_parser.parse_field_bin, parser_base.simple_switch, bind, deref in H.
  destruct (nth_error toks begin) as [tok|]; [|discriminate]. simpl in H.
  destruct (String.eqb (to_upper tok) "TRUE"); simpl in H.
  { inversion H. left. reflexivity. }
  destruct (String.eqb (to_upper tok) "FALSE"); simpl in H.
  { inversion H. right. left. reflexivity. }
  unfold run_nested in H. simpl in H.
  destruct (bin_parser.parse_loop fuel toks begin end_ _) as [it [p out]| | |] eqn:El;
    try discriminate.
  simpl in H. apply Hloop in El. destruct El as [_ Hiff].
  destruct (bin_parser.num_parsed_attrs p =? 0)%Z eqn:Hn; [discriminate|].
  apply Z.eqb_neq in Hn. simpl in H. inversion H. right. right.
  exists (bin_parser.bin p). split; [reflexivity|].
  intros Hb. apply Hiff in Hb. contradiction.
Qed.

Lemma X8_bin_counter_tells_applied_attributes_witness :
  exists c s',
    field_parser.parse_field_bin (E := no_numbers) 5 ["BIN"; "nice"; "false"] 1 3
      (xv.Channel0, []) = Ok c s'
    /\ (xv.bin (fst s') = Some (inl true)
        \/ xv.bin (fst s') = Some (inl false)
        \/ exists b, xv.bin (fst s') = Some (inr b) /\ b <> xv.Bin0).
Proof.
  destruct (field_parser.parse_field_bin (E := no_numbers) 5
              ["BIN"; "nice"; "false"] 1 3 (xv.Channel0, []))
    as [c s'| | |] eqn:Hrun; try (vm_compute in Hrun; discriminate Hrun).
  exists c, s'. split; [reflexivity|].
  exact (proj2 (X8_bin_counter_tells_applied_attributes (E := no_numbers) 5
                  ["BIN"; "nice"; "false"] 1 3) (xv.Channel0, []) c s' Hrun).
Defined.

(** X9. When the loop of the mark grammar returns, the chart holds a mark
    of the class that the keyword at the start of the clause selects --
    the [COLOR] attributes that follow never change the class -- and the
    chart is otherwise as it was before the clause. *)
Theorem X9_mark_clause_sets_only_the_mark {E : Externals} (fuel : nat)
    (toks : list string) (begin end_ : input_it)
    (s : st xv.Chart) (c : input_it) (s' : st xv.Chart) :
  mark_parser.parse_loop fuel toks begin end_ s = Ok c s' ->
  exists tok h k col,
    nth_error toks begin = Some tok
    /\ find (to_upper tok) mark_parser.mark_handlers = Some h
    /\ mark_stored h = Some {| xv.kind := k; xv.color := None |}
    /\ xv.mark_ (fst s') = Some {| xv.kind := k; xv.color := col |}
    /\ same_but_mark (fst s) (fst s').
Proof.
  intros H.
  pose proof (mark_loop_triple toks (snd s) (fun _ => True) end_
                (fun _ _ => Logic.I) (or_intror Logic.I) fuel begin (fst s) s
                (conj (trace_of_refl _ _) eq_refl)) as Htriple.
  rewrite H in Htriple.
  destruct Htriple as [tok [h [k [Htok [Hfind [Hstored [_ [Hsame [col Hm]]]]]]]]].
  exists tok, h, k, col. auto.
Qed.

Lemma X9_mark_clause_sets_only_the_mark_witness :
  exists s' tok h k col,
    mark_parser.parse_loop (E := no_numbers) 6 scenario_B 1 4
      (xv.set_width 400 xv.Chart0, []) = Ok 4 s'
    /\ nth_error scenario_B 1 = Some tok
    /\ find (to_upper tok) (mark_parser.mark_handlers (E := no_numbers)) = Some h
    /\ mark_stored h = Some {| xv.kind := k; xv.color := None |}
    /\ xv.mark_ (fst s') = Some {| xv.kind := k; xv.color := col |}
    /\ same_but_mark (xv.set_width 400 xv.Chart0) (fst s').
Proof.
  destruct (mark_parser.parse_loop (E := no_numbers) 6 scenario_B 1 4
              (xv.set_width 400 xv.Chart0, []))
    as [c s'| | |] eqn:Hrun; try (vm_compute in Hrun; discriminate Hrun).
  assert (Hc : c = 4) by (vm_compute in Hrun; inversion Hrun; reflexivity).
  subst c.
  destruct (X9_mark_clause_sets_only_the_mark (E := no_numbers) 6 scenario_B
              1 4 _ 4 s' Hrun) as [tok [h [k [col Hall]]]].
  exists s', tok, h, k, col. split; [reflexivity | exact Hall].
Defined.

(** ** A keyword as the last token *)

Lemma nth_error_end (toks : list string) : nth_error toks (List.length toks) = None.
Proof. apply nth_error_None. lia. Qed.

(** X10. In each of the four grammars, [parse_step] on a keyword of the
    grammar that is the last token of the vector raises no error: the
    arity check passes, the handler is called on [end] and reads there,
    out of range. (In the mark grammar this needs the chart to hold a
    mark, which it does after the init step.) *)
Theorem X10_keyword_as_last_token_reads_out_of_range {E : Externals}
    (fuel : nat) (toks : list string) (it : input_it) (tok : string) :
  nth_error toks it = Some tok ->
  S it = List.length toks ->
  (In (to_upper tok) (map fst (bin_parser.mapping_table toks)) ->
   forall s, bin_parser.parse_step toks it (List.length toks) s = Undefined)
  /\ (In (to_upper tok) (map fst (field_parser.mapping_table fuel toks)) ->
      forall s, field_parser.parse_step fuel toks it (List.length toks) s
                = Undefined)
  /\ (In (to_upper tok) (map fst (mark_parser.mapping_table toks)) ->
      forall s, xv.mark_ (fst s) <> None ->
                mark_parser.parse_step toks it (List.length toks) s = Undefined)
  /\ (In (to_upper tok) (map fst (xv_sqlite_parser.mapping_table fuel toks)) ->
      forall s, xv_sqlite_parser.parse_step fuel toks it (List.length toks) s
                = Undefined).
Proof.
  intros Htok Hlast.
  pose proof (nth_error_end toks) as Hend. rewrite <- Hlast in Hend.
  assert (Hd : (1 <= distance it (S it))%Z) by (unfold distance; lia).
  rewrite <- Hlast.
  split; [|split; [|split]]; intros Hin s.
  - unfold bin_parser.parse_step. simpl in Hin.
    repeat (destruct Hin as [Hin|Hin];
            [erewrite parse_step_match;
             [ | exact Htok | rewrite <- Hin; reflexivity | exact Hd ];
             simpl;
             unfold bin_parser.parse_bin_anchor, bin_parser.parse_bin_base,
               bin_parser.parse_bin_binned, bin_parser.parse_bin_maxbins,
               bin_parser.parse_bin_minstep, bin_parser.parse_bin_nice,
               bin_parser.parse_bin_step, bind, deref;
             rewrite Hend; reflexivity|]).
    contradiction.
  - unfold field_parser.parse_step. simpl in Hin.
    repeat (destruct Hin as [Hin|Hin];
            [erewrite parse_step_match;
             [ | exact Htok | rewrite <- Hin; reflexivity | exact Hd ];
             simpl;
             unfold field_parser.parse_field_type, field_parser.parse_field_bin,
               field_parser.parse_field_aggregate,
               field_parser.parse_field_time_unit, bind, deref;
             rewrite Hend; reflexivity|]).
    contradiction.
  - intros Hmark. unfold mark_parser.parse_step. simpl in Hin.
    destruct Hin as [Hin|Hin]; [|contradiction].
    erewrite parse_step_match;
      [ | exact Htok | rewrite <- Hin; reflexivity | exact Hd ].
    destruct s as [chart out]. simpl in Hmark.
    destruct (xv.mark_ chart) as [[k col]|] eqn:Hm; [|contradiction].
    simpl. unfold mark_parser.parse_color, bind, gets. simpl. rewrite Hm.
    unfold mark_parser.visit_any, parser_base.visit_any.
    destruct k; simpl; unfold mark_parser.set_color_visitor, bind, deref;
      rewrite Hend; reflexivity.
  - unfold xv_sqlite_parser.parse_step. simpl in Hin.
    repeat (destruct Hin as [Hin|Hin];
            [erewrite parse_step_match;
             [ | exact Htok | rewrite <- Hin; reflexivity | exact Hd ];
             simpl;
             unfold xv_sqlite_parser.parse_width, xv_sqlite_parser.parse_height,
               xv_sqlite_parser.parse_x_field, xv_sqlite_parser.parse_y_field,
               xv_sqlite_parser.parse_mark, xv_sqlite_parser.parse_grid,
               xv_sqlite_parser.parse_title, zoom,
               field_parser.parse_loop, mark_parser.parse_loop,
               parser_base.parse_loop, field_parser.parse_init,
               mark_parser.parse_init, bind, deref;
             rewrite Hend; reflexivity|]).
    contradiction.
Qed.

Lemma X10_keyword_as_last_token_reads_out_of_range_witness :
  nth_error ["X_FIELD"; "price"; "type"] 2 = Some "type"
  /\ field_parser.parse_step (E := no_numbers) 5 ["X_FIELD"; "price"; "type"] 2 3
       (xv.Channel0, []) = Undefined.
Proof.
  split; [reflexivity|].
  refine (proj1 (proj2 (X10_keyword_as_last_token_reads_out_of_range
                          (E := no_numbers) 5 ["X_FIELD"; "price"; "type"] 2
                          "type" eq_refl eq_refl)) _ (xv.Channel0, [])).
  simpl. tauto.
Defined.

(** ** Registering a visitor *)



(** ** The tables *)

Lemma find_unique V (table : list (string * V)) k v :
  NoDup (map fst table) -> In (k, v) table -> find k table = Some v.
Proof.
  induction table as [|[k' v'] rest IH]; simpl; intros Hnd Hin; [contradiction|].
  inversion Hnd as [|x xs Hnotin Hnd']; subst.
  destruct Hin as [Hin|Hin].
  - inversion Hin; subst. rewrite String.eqb_refl. reflexivity.
  - destruct (String.eqb k k') eqn:Ek.
    + apply String.eqb_eq in Ek. subst k'. exfalso. apply Hnotin.
      apply (in_map fst rest (k, v)). assumption.
    + apply IH; assumption.
Qed.

(** X12. No entry of a table is out of reach: in each of the four command
    tables and of the five tables of enumerated values the keywords are
    pairwise different and written in upper case, so any token whose
    upper-case form is the keyword of an entry finds that entry. *)
Theorem X12_every_table_entry_is_reachable {E : Externals} (fuel : nat)
    (toks : list string) :
  let reachable {V} (table : list (string * V)) :=
    NoDup (map fst table)
    /\ (forall k, In k (map fst table) -> to_upper k = k)
    /\ (forall k v tok, In (k, v) table -> to_upper tok = k ->
          find (to_upper tok) table = Some v) in
  reachable (bin_parser.mapping_table toks)
  /\ reachable (field_parser.mapping_table fuel toks)
  /\ reachable (mark_parser.mapping_table toks)
  /\ reachable (xv_sqlite_parser.mapping_table fuel toks)
  /\ reachable field_parser.type_handlers
  /\ reachable field_parser.aggregate_handlers
  /\ reachable field_parser.time_unit_handlers
  /\ reachable mark_parser.mark_handlers
  /\ reachable xv_sqlite_parser.grid_handlers.
Proof.
  assert (Hreach : forall V (table : list (string * V)),
             NoDup (map fst table) ->
             (forall k, In k (map fst table) -> to_upper k = k) ->
             NoDup (map fst table)
             /\ (forall k, In k (map fst table) -> to_upper k = k)
             /\ (forall k v tok, In (k, v) table -> to_upper tok = k ->
                   find (to_upper tok) table = Some v)).
  { intros V table Hnd Hup. split; [exact Hnd|]. split; [exact Hup|].
    intros k v tok Hin Htok. rewrite Htok. apply find_unique; assumption. }
  cbv zeta.
  repeat split;
    try (simpl; nodup_strings);
    try (intros k Hin; simpl in Hin;
         repeat (destruct Hin as [Hin|Hin]; [subst k; reflexivity|]);
         contradiction);
    (intros k v tok Hin Htok; rewrite Htok; apply find_unique;
     [simpl; nodup_strings | exact Hin]).
Qed.

Lemma X12_every_table_entry_is_reachable_witness :
  In ("STDEV", modify (xv.set_aggregate "stdev"))
     (field_parser.aggregate_handlers (E := no_numbers))
  /\ find (to_upper "StDev") (field_parser.aggregate_handlers (E := no_numbers))
     = Some (modify (xv.set_aggregate "stdev")).
Proof.
  assert (Hin : In ("STDEV", modify (xv.set_aggregate "stdev"))
                   (field_parser.aggregate_handlers (E := no_numbers)))
    by (simpl; tauto).
  split; [exact Hin|].
  destruct (X12_every_table_entry_is_reachable (E := no_numbers) 0 [])
    as (_ & _ & _ & _ & _ & (_ & _ & Hfind) & _).
  exact (Hfind "STDEV" _ "StDev" Hin eq_refl).
Defined.
